(** * NextGlobe: the style document and the map host component

    A shallow embedding of [src/components/Earth.tsx]:
    - the static style document [PLAYFUL_GLOBE_STYLE], as a JSON value whose
      objects keep their members in source order;
    - the [Earth] component: its two refs, its status state, the mount effect
      with its [try]/[catch], the two listeners it registers on the widget and
      the cleanup closure the effect returns.

    The map widget (maplibre-gl) and the hosting framework (React) are not
    part of the repository.  They are modelled by the little the component
    relies on: a heap of widget instances that records listeners and method
    calls, and a fiber that stores the cleanup an effect returned. *)

From Stdlib Require Import String Ascii List ZArith QArith Bool Lia.
From stdpp Require Import base option list.
Import ListNotations.
Open Scope string_scope.

(** ** JavaScript strings *)

Module Js.

(** [String.prototype.includes]: [sub] occurs somewhere in [s].  The two
    needles the component searches for are ASCII, so searching the UTF-8
    bytes finds the same occurrences as searching UTF-16 code units. *)
Fixpoint includes (s sub : string) : bool :=
  if String.prefix sub s then true
  else match s with
       | EmptyString => false
       | String _ s' => includes s' sub
       end.

(** [sub] occurs in [s]: what [includes] is meant to decide. *)
Definition occurs_in (sub s : string) : Prop :=
  exists a b, s = a ++ sub ++ b.

(** A template literal [`${x}`] applied to a property that may be missing:
    [undefined] is rendered as the word. *)
Definition template (x : option string) : string :=
  match x with
  | Some s => s
  | None => "undefined"
  end.

(** Truthiness of a value that is either [undefined] or a string. *)
Definition truthy (x : option string) : bool :=
  match x with
  | Some EmptyString => false
  | Some _ => true
  | None => false
  end.

End Js.

(** ** JSON values *)

(** The style document is an object literal made of numbers, strings, arrays
    and nested object literals.  Object members are kept as an association
    list in the order they are written, which is also the order in which
    JavaScript enumerates string keys. *)
#[local] Unset Elimination Schemes.
Inductive json : Type :=
| JNull
| JBool (b : bool)
| JNum (q : Q)
| JStr (s : string)
| JArr (items : list json)
| JObj (members : list (string * json)).
#[local] Set Elimination Schemes.

Module Json.

(** Property access [o[k]]: the first member named [k]. *)
Fixpoint assoc (k : string) (ms : list (string * json)) : option json :=
  match ms with
  | [] => None
  | (k', v) :: ms' => if String.eqb k k' then Some v else assoc k ms'
  end.

Definition get (k : string) (v : json) : option json :=
  match v with
  | JObj ms => assoc k ms
  | _ => None
  end.

Definition as_string (v : json) : option string :=
  match v with JStr s => Some s | _ => None end.

Definition members (v : json) : list (string * json) :=
  match v with JObj ms => ms | _ => [] end.

End Json.

(** ** The style document *)

Local Open Scope Q_scope.

Definition PLAYFUL_GLOBE_STYLE : json :=
  JObj [
    ("version", JNum 8);
    ("name", JStr "Playful Illustrated Globe");
    ("sources", JObj [
      ("terrain", JObj [
        ("type", JStr "raster");
        ("tiles", JArr [
          JStr "https://server.arcgisonline.com/ArcGIS/rest/services/World_Physical_Map/MapServer/tile/{z}/{y}/{x}"
        ]);
        ("tileSize", JNum 256);
        ("maxzoom", JNum 8);
        ("attribution", JStr "© Esri")
      ]);
      ("openmaptiles", JObj [
        ("type", JStr "vector");
        ("url", JStr "https://tiles.openfreemap.org/planet")
      ])
    ]);
    ("layers", JArr [
      JObj [
        ("id", JStr "background");
        ("type", JStr "background");
        ("paint", JObj [
          ("background-color", JStr "rgb(2, 4, 8)")
        ])
      ];
      JObj [
        ("id", JStr "terrain-raster");
        ("type", JStr "raster");
        ("source", JStr "terrain");
        ("paint", JObj [
          ("raster-opacity", JNum 1);
          ("raster-saturation", JNum 0.6);
          ("raster-contrast", JNum 0.1);
          ("raster-brightness-min", JNum 0.2)
        ])
      ];
      JObj [
        ("id", JStr "water-fill");
        ("type", JStr "fill");
        ("source", JStr "openmaptiles");
        ("source-layer", JStr "water");
        ("paint", JObj [
          ("fill-color", JStr "rgb(60, 140, 210)");
          ("fill-opacity", JNum 0.5)
        ])
      ];
      JObj [
        ("id", JStr "coastline-glow");
        ("type", JStr "line");
        ("source", JStr "openmaptiles");
        ("source-layer", JStr "water");
        ("paint", JObj [
          ("line-color", JStr "rgb(160, 230, 255)");
          ("line-width", JNum 2);
          ("line-blur", JNum 1);
          ("line-opacity", JNum 0.6)
        ])
      ];
      JObj [
        ("id", JStr "landcover-green");
        ("type", JStr "fill");
        ("source", JStr "openmaptiles");
        ("source-layer", JStr "landcover");
        ("paint", JObj [
          ("fill-color", JStr "rgb(130, 235, 120)");
          ("fill-opacity", JNum 0.45)
        ])
      ];
      JObj [
        ("id", JStr "landuse-green");
        ("type", JStr "fill");
        ("source", JStr "openmaptiles");
        ("source-layer", JStr "landuse");
        ("paint", JObj [
          ("fill-color", JStr "rgb(150, 230, 140)");
          ("fill-opacity", JNum 0.35)
        ])
      ];
      JObj [
        ("id", JStr "continent-label");
        ("type", JStr "symbol");
        ("source", JStr "openmaptiles");
        ("source-layer", JStr "place");
        ("filter", JArr [JStr "=="; JStr "class"; JStr "continent"]);
        ("layout", JObj [
          ("text-field", JStr "{name:en}");
          ("text-font", JArr [JStr "Noto Sans Bold"]);
          ("text-size", JNum 18);
          ("text-transform", JStr "uppercase");
          ("text-letter-spacing", JNum 0.3)
        ]);
        ("paint", JObj [
          ("text-color", JStr "rgb(100, 110, 120)");
          ("text-halo-color", JStr "rgba(255, 255, 255, 0.8)");
          ("text-halo-width", JNum 2)
        ])
      ];
      JObj [
        ("id", JStr "country-label");
        ("type", JStr "symbol");
        ("source", JStr "openmaptiles");
        ("source-layer", JStr "place");
        ("filter", JArr [JStr "=="; JStr "class"; JStr "country"]);
        ("layout", JObj [
          ("text-field", JStr "{name:en}");
          ("text-font", JArr [JStr "Noto Sans Regular"]);
          ("text-size", JArr [JStr "interpolate"; JArr [JStr "linear"]; JArr [JStr "zoom"];
                              JNum 2; JNum 10; JNum 5; JNum 14]);
          ("text-transform", JStr "uppercase");
          ("text-letter-spacing", JNum 0.1)
        ]);
        ("paint", JObj [
          ("text-color", JStr "rgb(120, 130, 140)");
          ("text-halo-color", JStr "rgba(255, 255, 255, 0.7)");
          ("text-halo-width", JNum 1.5)
        ])
      ];
      JObj [
        ("id", JStr "city-label");
        ("type", JStr "symbol");
        ("source", JStr "openmaptiles");
        ("source-layer", JStr "place");
        ("minzoom", JNum 3);
        ("filter", JArr [JStr "in"; JStr "class"; JStr "city"; JStr "town"]);
        ("layout", JObj [
          ("text-field", JStr "{name:en}");
          ("text-font", JArr [JStr "Noto Sans Regular"]);
          ("text-size", JArr [JStr "interpolate"; JArr [JStr "linear"]; JArr [JStr "zoom"];
                              JNum 3; JNum 9; JNum 8; JNum 12]);
          ("text-anchor", JStr "bottom");
          ("text-offset", JArr [JNum 0; JNum (-0.5)])
        ]);
        ("paint", JObj [
          ("text-color", JStr "rgb(80, 90, 100)");
          ("text-halo-color", JStr "white");
          ("text-halo-width", JNum 1)
        ])
      ]
    ]);
    ("glyphs", JStr "https://tiles.openfreemap.org/fonts/{fontstack}/{range}.pbf");
    ("sprite", JStr "https://tiles.openfreemap.org/sprites/ofm_f384/ofm");
    ("fog", JObj [
      ("range", JArr [JNum 1; JNum 15]);
      ("color", JStr "rgb(255, 255, 255)");
      ("high-color", JStr "rgb(200, 230, 255)");
      ("horizon-blend", JNum 0.05);
      ("space-color", JStr "rgb(5, 5, 10)");
      ("star-intensity", JNum 0.15)
    ])
  ].

Local Close Scope Q_scope.

(** ** Reading the style document *)

Module Style.

(** [style.layers], in document order. *)
Definition layers (style : json) : list json :=
  match Json.get "layers" style with
  | Some (JArr ls) => ls
  | _ => []
  end.

(** [layer.id] *)
Definition layer_id (layer : json) : option string :=
  Json.get "id" layer ≫= Json.as_string.

(** A style expression is an array whose head names the operator.  A value
    depends on the zoom level when the camera expression [["zoom"]] occurs
    in it, or when it is a function object in the older stops notation. *)
Fixpoint mentions_zoom (v : json) : bool :=
  match v with
  | JArr [JStr "zoom"] => true
  | JArr items => existsb mentions_zoom items
  | JObj ms =>
      existsb (fun m => String.eqb (fst m) "stops") ms
      || existsb (fun '(_, x) => mentions_zoom x) ms
  | _ => false
  end.

(** The zoom-dependent properties of one layer: every member of its
    [paint] and [layout] objects whose value depends on the zoom. *)
Definition zoom_properties (layer : json) : list (string * string * json) :=
  flat_map
    (fun section =>
       match Json.get section layer with
       | Some props =>
           map (fun '(k, v) => (section, k, v))
               (filter (fun m => mentions_zoom (snd m) = true) (Json.members props))
       | None => []
       end)
    ["paint"; "layout"].

Definition zoom_interpolated (style : json)
  : list (option string * string * string * json) :=
  flat_map (fun l => map (fun '(sec, k, v) => (layer_id l, sec, k, v)) (zoom_properties l))
           (layers style).

(** Breakpoints of an expression: the operands after the input, taken two
    by two as (input, output). *)
Fixpoint stops (operands : list json) : option (list (Q * Q)) :=
  match operands with
  | [] => Some []
  | JNum z :: JNum x :: rest => option_map (cons (z, x)) (stops rest)
  | _ => None
  end.

(** [["interpolate", ["linear"], ["zoom"], z1, v1, ..., zn, vn]] read as
    its list of breakpoints; anything else is not a linear interpolation
    over the zoom. *)
Definition linear_zoom_stops (v : json) : option (list (Q * Q)) :=
  match v with
  | JArr (JStr "interpolate" :: JArr [JStr "linear"] :: JArr [JStr "zoom"] :: operands) =>
      stops operands
  | _ => None
  end.

End Style.

(** ** The map widget *)

(** What the component uses of the map library: the constructor, [on],
    [setProjection], [remove].  An instance records what was done to it. *)
Module Widget.

(** Instances are named by their position in the heap of instances. *)
Abbreviation MapId := nat.

(** The [div] a ref points to. *)
Abbreviation Container := nat.

Record ProjectionSpec := { type : string }.

Record MapOptions := {
  container : Container;
  style : json;
  center : Q * Q;
  zoom : Q;
  pitch : Q;
  projection : ProjectionSpec;
  attributionControl : bool;
  renderWorldCopies : bool;
  maxPitch : Q;
  antialias : bool
}.

(** A thrown value, or the [error] member of an error event: the only
    property read from either is [message]. *)
Record ErrorObj := { message : option string }.

(** The argument an [error] listener receives. *)
Record ErrorEvent := { error : option ErrorObj }.

Inductive Event :=
| Load
| Error (e : ErrorEvent).

Definition event_name (ev : Event) : string :=
  match ev with
  | Load => "load"
  | Error _ => "error"
  end.

(** The two closures the component registers.  The load listener captures
    the instance it was registered on. *)
Inductive Listener :=
| OnLoad (map : MapId)
| OnError.

Record MapInstance := {
  options : MapOptions;
  (** whether this build of the library gives instances a [setProjection] *)
  setProjection_defined : bool;
  listeners : list (string * Listener);
  setProjection_calls : list ProjectionSpec;
  remove_calls : nat
}.

Definition fresh (opts : MapOptions) (sp : bool) : MapInstance :=
  {| options := opts; setProjection_defined := sp; listeners := [];
     setProjection_calls := []; remove_calls := 0 |}.

Definition add_listener (name : string) (l : Listener) (w : MapInstance) : MapInstance :=
  {| options := options w; setProjection_defined := setProjection_defined w;
     listeners := listeners w ++ [(name, l)];
     setProjection_calls := setProjection_calls w; remove_calls := remove_calls w |}.

Definition record_setProjection (p : ProjectionSpec) (w : MapInstance) : MapInstance :=
  {| options := options w; setProjection_defined := setProjection_defined w;
     listeners := listeners w;
     setProjection_calls := setProjection_calls w ++ [p]; remove_calls := remove_calls w |}.

Definition record_remove (w : MapInstance) : MapInstance :=
  {| options := options w; setProjection_defined := setProjection_defined w;
     listeners := listeners w;
     setProjection_calls := setProjection_calls w; remove_calls := S (remove_calls w) |}.

(** What one call of the constructor does: it throws, or it returns an
    instance. *)
Inductive CtorOutcome :=
| CtorThrows (e : ErrorObj)
| CtorReturns (setProjection_defined : bool).

End Widget.

Import Widget.

(** ** The state the component runs in *)

Inductive LogEntry :=
| ConsoleLog (text : string)
| ConsoleError (text : string) (e : ErrorEvent).

Record Sys := {
  mapContainer : option Container;   (** [mapContainer.current] *)
  mapRef : option MapId;             (** [mapRef.current] *)
  status : string;                   (** the [status] state *)
  setStatus_calls : list string;     (** every argument [setStatus] was called with *)
  widgets : list MapInstance;        (** every instance constructed so far *)
  console : list LogEntry
}.

(** Statements either complete or throw. *)
Inductive Completion (A : Type) :=
| Normal (a : A)
| Throw (e : ErrorObj).
Arguments Normal {A} a.
Arguments Throw {A} e.

Definition Eff (A : Type) : Type := Sys -> Completion A * Sys.

Definition ret {A} (a : A) : Eff A := fun s => (Normal a, s).

Definition bind {A B} (m : Eff A) (k : A -> Eff B) : Eff B :=
  fun s =>
    match m s with
    | (Normal a, s') => k a s'
    | (Throw e, s') => (Throw e, s')
    end.

(** [try { body } catch (error) { handler }] *)
Definition try_catch {A} (body : Eff A) (handler : ErrorObj -> Eff A) : Eff A :=
  fun s =>
    match body s with
    | (Normal a, s') => (Normal a, s')
    | (Throw e, s') => handler e s'
    end.

Declare Scope eff_scope.
Delimit Scope eff_scope with eff.
Notation "x <- c1 ;; c2" := (bind c1 (fun x => c2))
  (at level 100, c1 at next level, right associativity) : eff_scope.
Notation "c1 ;; c2" := (bind c1 (fun _ => c2))
  (at level 100, right associativity) : eff_scope.

Definition run {A} (m : Eff A) (s : Sys) : Sys := snd (m s).

(** *** Primitive operations *)

Definition with_mapRef (r : option MapId) (s : Sys) : Sys :=
  {| mapContainer := mapContainer s; mapRef := r; status := status s;
     setStatus_calls := setStatus_calls s; widgets := widgets s; console := console s |}.

Definition with_status (text : string) (s : Sys) : Sys :=
  {| mapContainer := mapContainer s; mapRef := mapRef s; status := text;
     setStatus_calls := setStatus_calls s ++ [text]; widgets := widgets s;
     console := console s |}.

Definition with_widgets (ws : list MapInstance) (s : Sys) : Sys :=
  {| mapContainer := mapContainer s; mapRef := mapRef s; status := status s;
     setStatus_calls := setStatus_calls s; widgets := ws; console := console s |}.

Definition with_console (c : list LogEntry) (s : Sys) : Sys :=
  {| mapContainer := mapContainer s; mapRef := mapRef s; status := status s;
     setStatus_calls := setStatus_calls s; widgets := widgets s; console := c |}.

Definition read_mapRef : Eff (option MapId) := fun s => (Normal (mapRef s), s).
Definition write_mapRef (r : option MapId) : Eff unit := fun s => (Normal tt, with_mapRef r s).
Definition read_mapContainer : Eff (option Container) := fun s => (Normal (mapContainer s), s).

Definition setStatus (text : string) : Eff unit := fun s => (Normal tt, with_status text s).

Definition console_log (text : string) : Eff unit :=
  fun s => (Normal tt, with_console (console s ++ [ConsoleLog text]) s).
Definition console_error (text : string) (e : ErrorEvent) : Eff unit :=
  fun s => (Normal tt, with_console (console s ++ [ConsoleError text e]) s).

(** [new maplibregl.Map(opts)]: the new instance is the next one of the heap. *)
Definition new_Map (o : CtorOutcome) (opts : MapOptions) : Eff MapId :=
  fun s =>
    match o with
    | CtorThrows e => (Throw e, s)
    | CtorReturns sp => (Normal (length (widgets s)), with_widgets (widgets s ++ [fresh opts sp]) s)
    end.

(** [map.on(name, listener)] *)
Definition map_on (m : MapId) (name : string) (l : Listener) : Eff unit :=
  fun s => (Normal tt, with_widgets (alter (add_listener name l) m (widgets s)) s).

(** the value of [map.setProjection] as a condition *)
Definition map_has_setProjection (m : MapId) : Eff bool :=
  fun s => (Normal (from_option setProjection_defined false (widgets s !! m)), s).

(** [map.setProjection(p)] *)
Definition map_setProjection (m : MapId) (p : ProjectionSpec) : Eff unit :=
  fun s => (Normal tt, with_widgets (alter (record_setProjection p) m (widgets s)) s).

(** [map.remove()] *)
Definition map_remove (m : MapId) : Eff unit :=
  fun s => (Normal tt, with_widgets (alter record_remove m (widgets s)) s).

(** ** The component *)

Module Earth.

Open Scope eff_scope.

Definition globe : ProjectionSpec := {| type := "globe" |}.

(** [useState('Initializing Globe...')], [useRef(null)] twice; the
    container ref is filled in by the framework when the [div] exists. *)
Definition initial (c : option Container) : Sys :=
  {| mapContainer := c; mapRef := None; status := "Initializing Globe...";
     setStatus_calls := []; widgets := []; console := [] |}.

Definition map_options (c : Container) : MapOptions :=
  {| container := c;
     style := PLAYFUL_GLOBE_STYLE;
     center := ((-95)%Q, 38%Q);
     zoom := 2.2%Q;
     pitch := 0%Q;
     projection := globe;
     attributionControl := false;
     renderWorldCopies := false;
     maxPitch := 85%Q;
     antialias := true |}.

(** The listener given to [map.on('load', ...)]. *)
Definition on_load (map : MapId) : Eff unit :=
  setStatus "" ;;
  console_log "Playful Globe Style Loaded" ;;
  defined <- map_has_setProjection map ;;
  if defined then map_setProjection map globe else ret tt.

(** [e.error?.message] *)
Definition error_message (e : ErrorEvent) : option string :=
  match error e with
  | Some err => message err
  | None => None
  end.

(** The listener given to [map.on('error', ...)]. *)
Definition on_error (e : ErrorEvent) : Eff unit :=
  console_error "Map Error:" e ;;
  match error_message e with
  | Some m =>
      if Js.truthy (Some m) && negb (Js.includes m "glyph") && negb (Js.includes m "sprite")
      then setStatus ("Error: " ++ m)
      else ret tt
  | None => ret tt
  end.

(** The function the effect returns. *)
Definition cleanup : Eff unit :=
  cur <- read_mapRef ;;
  match cur with
  | Some m => map_remove m ;; write_mapRef None
  | None => ret tt
  end.

(** The body of [useEffect(() => { ... }, [])].  [o] is what the widget
    constructor does if it is reached.  The result is the cleanup the
    framework is handed, [None] for the two bare [return]s. *)
Definition effect (o : CtorOutcome) : Eff (option (Eff unit)) :=
  cur <- read_mapRef ;;
  match cur with
  | Some _ => ret None
  | None =>
      c <- read_mapContainer ;;
      match c with
      | None => ret None
      | Some c =>
          try_catch
            (map <- new_Map o (map_options c) ;;
             write_mapRef (Some map) ;;
             map_on map "load" (OnLoad map) ;;
             map_on map "error" OnError)
            (fun error => setStatus ("Initialization Failed: " ++ Js.template (message error))) ;;
          ret (Some cleanup)
      end
  end.

(** [{status && (<div ...>{status}</div>)}]: the overlay is rendered when
    the status is a non-empty string. *)
Definition overlay (s : Sys) : option string :=
  if Js.truthy (Some (status s)) then Some (status s) else None.

End Earth.

(** ** Event delivery and the component's life *)

(** Calling a registered listener with an event object.  A load event object
    has no [error] member. *)
Definition call (l : Listener) (ev : Event) : Eff unit :=
  match l with
  | OnLoad map => Earth.on_load map
  | OnError =>
      Earth.on_error (match ev with Error e => e | Load => {| error := None |} end)
  end.

Fixpoint call_all (ls : list (string * Listener)) (ev : Event) : Eff unit :=
  match ls with
  | [] => ret tt
  | (name, l) :: ls' =>
      if String.eqb name (event_name ev)
      then bind (call l ev) (fun _ => call_all ls' ev)
      else call_all ls' ev
  end.

(** The widget [m] fires [ev]: the listeners registered under the event's
    name run in registration order. *)
Definition fire (m : MapId) (ev : Event) : Eff unit :=
  fun s =>
    match widgets s !! m with
    | Some w => call_all (listeners w) ev s
    | None => (Normal tt, s)
    end.

(** What the framework keeps of a mounted component: its state, the cleanup
    its effect returned, and the exception that escaped it, if any. *)
Record Fiber := {
  sys : Sys;
  stored_cleanup : option (Eff unit);
  escaped : option ErrorObj
}.

(** Mounting runs the effect once and stores the cleanup. *)
Definition mount (o : CtorOutcome) (s : Sys) : Fiber :=
  match Earth.effect o s with
  | (Normal cl, s') => {| sys := s'; stored_cleanup := cl; escaped := None |}
  | (Throw e, s') => {| sys := s'; stored_cleanup := None; escaped := Some e |}
  end.

Definition deliver (f : Fiber) (mev : MapId * Event) : Fiber :=
  {| sys := run (fire (fst mev) (snd mev)) (sys f);
     stored_cleanup := stored_cleanup f; escaped := escaped f |}.

Definition deliver_all (evs : list (MapId * Event)) (f : Fiber) : Fiber :=
  fold_left deliver evs f.

(** Unmounting runs the stored cleanup, if the effect returned one. *)
Definition unmount (f : Fiber) : Sys :=
  match stored_cleanup f with
  | Some cl => run cl (sys f)
  | None => sys f
  end.

(** How often [remove] was called, over all instances. *)
Definition disposals (s : Sys) : nat := sum_list (remove_calls <$> widgets s).

(** The [setProjection] calls the instance [m] received. *)
Definition projection_calls (m : MapId) (s : Sys) : list ProjectionSpec :=
  from_option setProjection_calls [] (widgets s !! m).

(** ** Anything that can happen to the component *)

(** The framework executes the effect or the cleanup, a widget fires an
    event.  Sequences of these, in any order, include every schedule the
    framework follows (mount, events, unmount, and the remount of its strict
    mode) and more. *)
Inductive Action :=
| RunEffect (o : CtorOutcome)
| RunCleanup
| Fire (m : MapId) (ev : Event).

Definition step (s : Sys) (a : Action) : Sys :=
  match a with
  | RunEffect o => run (Earth.effect o) s
  | RunCleanup => run Earth.cleanup s
  | Fire m ev => run (fire m ev) s
  end.

Definition steps (acts : list Action) (s : Sys) : Sys := fold_left step acts s.

(** ** What the component renders *)

#[local] Unset Elimination Schemes.
Inductive vnode : Type :=
| VText (text : string)
| VElem (tag className : string) (ref : option string) (children : list vnode).
#[local] Set Elimination Schemes.

Module EarthView.




(** The class names of the children of the root. *)
Definition layers_of (v : vnode) : list string :=
  match v with
  | VText _ => []
  | VElem _ _ _ children =>
      flat_map (fun c => match c with VElem _ cn _ _ => [cn] | VText _ => [] end) children
  end.

End EarthView.

(** ** The build configuration *)

(** [next.config.ts].  [node_env] is [process.env.NODE_ENV], which may be
    unset. *)
Module NextConfig.

Record Images := { unoptimized : bool }.

Record Config := {
  output : string;
  images : Images;
  basePath : string;
  assetPrefix : string
}.

(** [process.env.NODE_ENV === "production"] *)
Definition isProd (node_env : option string) : bool :=
  match node_env with
  | Some v => String.eqb v "production"
  | None => false
  end.

Definition nextConfig (node_env : option string) : Config :=
  {| output := "export";
     images := {| unoptimized := true |};
     basePath := if isProd node_env then "/NextGlobe" else "";
     assetPrefix := if isProd node_env then "/NextGlobe/" else "" |}.

End NextConfig.

(** ** JSON text *)

(** Modelled from the spec: the repository has no code that serializes the
    style document; the spec speaks of serializing and deserializing it for
    persistence or transmission.  [stringify] and [parse] follow the JSON
    text format as JavaScript's [JSON.stringify] and [JSON.parse] produce and
    read it: no insignificant whitespace on output, members in enumeration
    order, numbers in plain decimal notation, strings with the mandatory
    escapes.  Numbers are the decimal fractions a literal of the source
    denotes; [stringify] is undefined on a number that is not one, or that is
    not written in lowest terms of ten. *)
Module JsonText.

Definition dquote : ascii := ascii_of_nat 34.
Definition backslash : ascii := ascii_of_nat 92.

(** *** Numbers *)

Definition digit_char (d : N) : ascii := ascii_of_N (48 + d).

Fixpoint digits_from (fuel : nat) (n : N) (acc : string) : string :=
  let acc' := String (digit_char (n mod 10)) acc in
  match fuel with
  | O => acc'
  | S fuel' => if (n / 10 =? 0)%N then acc' else digits_from fuel' (n / 10) acc'
  end.

(** The decimal digits of [n], most significant first. *)
Definition digits (n : N) : string := digits_from (N.size_nat n) n "".

(** [Some k] when [d] is the [k]-th power of ten. *)
Fixpoint log10 (fuel : nat) (d : N) : option nat :=
  if (d =? 1)%N then Some O
  else match fuel with
       | O => None
       | S fuel' =>
           if (d mod 10 =? 0)%N then option_map S (log10 fuel' (d / 10)) else None
       end.

Fixpoint zeros (n : nat) : string :=
  match n with
  | O => ""
  | S n' => String "0" (zeros n')
  end.

Definition number_text (q : Q) : option string :=
  let a := Z.abs_N (Qnum q) in
  match log10 (Pos.size_nat (Qden q)) (Npos (Qden q)) with
  | None => None
  | Some k =>
      let sign := if (Qnum q <? 0)%Z then "-" else "" in
      match k with
      | O => Some (sign ++ digits a)
      | S _ =>
          if (a mod 10 =? 0)%N then None
          else
            let ds := digits a in
            let padded := zeros (S k - String.length ds) ++ ds in
            let int_len := (String.length padded - k)%nat in
            Some (sign ++ substring 0 int_len padded ++ "."
                       ++ substring int_len k padded)
      end
  end.

(** *** Strings *)

Definition hex_char (d : N) : ascii :=
  if (d <? 10)%N then ascii_of_N (48 + d) else ascii_of_N (87 + d).

Definition escape (c : ascii) : string :=
  let n := N_of_ascii c in
  if (n =? 34)%N then String backslash (String dquote "")
  else if (n =? 92)%N then String backslash (String backslash "")
  else if (n =? 8)%N then String backslash "b"
  else if (n =? 12)%N then String backslash "f"
  else if (n =? 10)%N then String backslash "n"
  else if (n =? 13)%N then String backslash "r"
  else if (n =? 9)%N then String backslash "t"
  else if (n <? 32)%N then
    String backslash ("u00" ++ String (hex_char (n / 16)) (String (hex_char (n mod 16)) ""))
  else String c "".

Fixpoint escape_all (s : string) : string :=
  match s with
  | EmptyString => ""
  | String c s' => escape c ++ escape_all s'
  end.

Definition quote (s : string) : string :=
  String dquote (escape_all s ++ String dquote "").

(** *** Values *)

Fixpoint join (parts : list string) : string :=
  match parts with
  | [] => ""
  | [p] => p
  | p :: ps => p ++ "," ++ join ps
  end.

Fixpoint all_some {A} (l : list (option A)) : option (list A) :=
  match l with
  | [] => Some []
  | Some x :: l' => option_map (cons x) (all_some l')
  | None :: _ => None
  end.

(** Modelled from the spec: the serializer, which the repository does not
    have.  The text of a value, as [JSON.stringify] writes it. *)
Fixpoint stringify (v : json) : option string :=
  match v with
  | JNull => Some "null"
  | JBool true => Some "true"
  | JBool false => Some "false"
  | JNum q => number_text q
  | JStr s => Some (quote s)
  | JArr items =>
      option_map (fun parts => "[" ++ join parts ++ "]")
                 (all_some (map stringify items))
  | JObj ms =>
      option_map (fun parts => "{" ++ join parts ++ "}")
                 (all_some
                    (map (fun '(k, x) =>
                            option_map (fun t => quote k ++ ":" ++ t) (stringify x))
                         ms))
  end.

(** *** Reading *)

Definition is_ws (c : ascii) : bool :=
  let n := N_of_ascii c in
  (n =? 32)%N || (n =? 9)%N || (n =? 10)%N || (n =? 13)%N.

Fixpoint skip_ws (s : string) : string :=
  match s with
  | String c s' => if is_ws c then skip_ws s' else s
  | EmptyString => s
  end.

Definition digit_value (c : ascii) : option N :=
  let n := N_of_ascii c in
  if (48 <=? n)%N && (n <=? 57)%N then Some (n - 48)%N else None.

(** The longest run of digits at the head of [s]: its value continuing
    [acc], its length, and what follows. *)
Fixpoint read_digits (s : string) (acc : N) (len : nat) : N * nat * string :=
  match s with
  | String c s' =>
      match digit_value c with
      | Some d => read_digits s' (10 * acc + d)%N (S len)
      | None => (acc, len, s)
      end
  | EmptyString => (acc, len, s)
  end.

Definition leading_zero (s : string) : bool :=
  match s with
  | String "0" (String c _) =>
      match digit_value c with Some _ => true | None => false end
  | _ => false
  end.

Fixpoint pow10 (k : nat) : positive :=
  match k with
  | O => 1
  | S k' => 10 * pow10 k'
  end.

(** [-]? digits ([.] digits)?, without superfluous leading zeros.  The
    exponent notation, which [stringify] never writes for the numbers it
    accepts, is not read. *)
Definition read_number (s : string) : option (Q * string) :=
  let '(negative, s1) :=
    match s with
    | String "-" s' => (true, s')
    | _ => (false, s)
    end in
  if leading_zero s1 then None
  else
    match read_digits s1 0%N O with
    | (_, O, _) => None
    | (i, S _, String "." s3) =>
        match read_digits s3 i O with
        | (_, O, _) => None
        | (n, S k, rest) =>
            Some (Qmake (if negative then - Z.of_N n else Z.of_N n) (pow10 (S k)), rest)
        end
    | (i, S _, rest) =>
        Some (Qmake (if negative then - Z.of_N i else Z.of_N i) 1, rest)
    end.

Definition hex_value (c : ascii) : option N :=
  let n := N_of_ascii c in
  if (48 <=? n)%N && (n <=? 57)%N then Some (n - 48)%N
  else if (97 <=? n)%N && (n <=? 102)%N then Some (n - 87)%N
  else if (65 <=? n)%N && (n <=? 70)%N then Some (n - 55)%N
  else None.

(** The character an escape sequence stands for, given what follows the
    backslash.  [\u] escapes are read for the code points below 128, the
    only ones [stringify] writes. *)
Definition read_escape (s : string) : option (ascii * string) :=
  match s with
  | String "b" rest => Some (ascii_of_nat 8, rest)
  | String "f" rest => Some (ascii_of_nat 12, rest)
  | String "n" rest => Some (ascii_of_nat 10, rest)
  | String "r" rest => Some (ascii_of_nat 13, rest)
  | String "t" rest => Some (ascii_of_nat 9, rest)
  | String "/" rest => Some ("/"%char, rest)
  | String "u" (String a (String b (String c (String d rest)))) =>
      match hex_value a, hex_value b, hex_value c, hex_value d with
      | Some 0%N, Some 0%N, Some h, Some l =>
          if (h <? 8)%N then Some (ascii_of_N (16 * h + l), rest) else None
      | _, _, _, _ => None
      end
  | String c rest =>
      if Ascii.eqb c dquote || Ascii.eqb c backslash then Some (c, rest) else None
  | EmptyString => None
  end.

(** The characters of a string literal after its opening quote, up to the
    closing one. *)
Fixpoint read_string (fuel : nat) (s : string) : option (string * string) :=
  match fuel with
  | O => None
  | S fuel' =>
      match s with
      | EmptyString => None
      | String c rest =>
          if Ascii.eqb c dquote then Some ("", rest)
          else if Ascii.eqb c backslash then
            match read_escape rest with
            | Some (x, rest') =>
                option_map (fun '(t, r) => (String x t, r)) (read_string fuel' rest')
            | None => None
            end
          else if (N_of_ascii c <? 32)%N then None
          else option_map (fun '(t, r) => (String c t, r)) (read_string fuel' rest)
      end
  end.

Definition literal (word : string) (v : json) (s : string) : option (json * string) :=
  if String.prefix word s
  then Some (v, substring (String.length word) (String.length s - String.length word) s)
  else None.

Fixpoint read_value (fuel : nat) (s : string) : option (json * string) :=
  match fuel with
  | O => None
  | S fuel' =>
      match skip_ws s with
      | String "[" rest =>
          match skip_ws rest with
          | String "]" rest' => Some (JArr [], rest')
          | _ => option_map (fun '(items, r) => (JArr items, r)) (read_items fuel' rest)
          end
      | String "{" rest =>
          match skip_ws rest with
          | String "}" rest' => Some (JObj [], rest')
          | _ => option_map (fun '(ms, r) => (JObj ms, r)) (read_members fuel' rest)
          end
      | String "n" _ as t => literal "null" JNull t
      | String "t" _ as t => literal "true" (JBool true) t
      | String "f" _ as t => literal "false" (JBool false) t
      | String c rest as t =>
          if Ascii.eqb c dquote
          then option_map (fun '(x, r) => (JStr x, r)) (read_string (String.length rest) rest)
          else option_map (fun '(q, r) => (JNum q, r)) (read_number t)
      | EmptyString => None
      end
  end

with read_items (fuel : nat) (s : string) : option (list json * string) :=
  match fuel with
  | O => None
  | S fuel' =>
      match read_value fuel' s with
      | Some (v, rest) =>
          match skip_ws rest with
          | String "," rest' =>
              option_map (fun '(vs, r) => (v :: vs, r)) (read_items fuel' rest')
          | String "]" rest' => Some ([v], rest')
          | _ => None
          end
      | None => None
      end
  end

with read_members (fuel : nat) (s : string) : option (list (string * json) * string) :=
  match fuel with
  | O => None
  | S fuel' =>
      match skip_ws s with
      | String c rest =>
          if Ascii.eqb c dquote then
            match read_string (String.length rest) rest with
            | Some (k, rest1) =>
                match skip_ws rest1 with
                | String ":" rest2 =>
                    match read_value fuel' rest2 with
                    | Some (v, rest3) =>
                        match skip_ws rest3 with
                        | String "," rest4 =>
                            option_map (fun '(ms, r) => ((k, v) :: ms, r))
                                       (read_members fuel' rest4)
                        | String "}" rest4 => Some ([(k, v)], rest4)
                        | _ => None
                        end
                    | None => None
                    end
                | _ => None
                end
            | None => None
            end
          else None
      | EmptyString => None
      end
  end.

(** Modelled from the spec: the deserializer, which the repository does not
    have.  A whole text, as [JSON.parse] reads it: one value, then nothing
    but whitespace. *)
Definition parse (text : string) : option json :=
  match read_value (2 * String.length text + 2) text with
  | Some (v, rest) =>
      match skip_ws rest with
      | EmptyString => Some v
      | _ => None
      end
  | None => None
  end.

(** Modelled from the spec: serializing, then deserializing. *)
Definition round_trip (v : json) : option json :=
  match stringify v with
  | Some text => parse text
  | None => None
  end.

(** *** Objects the association lists stand for *)

Fixpoint names_distinct (ks : list string) : bool :=
  match ks with
  | [] => true
  | k :: ks' => negb (existsb (String.eqb k) ks') && names_distinct ks'
  end.

(** A member name that begins with a digit may be an array index, which
    JavaScript enumerates before the other names whatever the order of
    insertion. *)
Definition plain_name (k : string) : bool :=
  match k with
  | String c _ =>
      match digit_value c with Some _ => false | None => true end
  | EmptyString => true
  end.

(** Every object of [v] has distinct names, none of them an index: the
    association list then is the object, enumeration order included. *)
Fixpoint well_formed (v : json) : bool :=
  match v with
  | JArr items => forallb well_formed items
  | JObj ms =>
      names_distinct (map fst ms)
      && forallb (fun m => plain_name (fst m)) ms
      && forallb (fun '(_, x) => well_formed x) ms
  | _ => true
  end.

End JsonText.

(** ** Vocabulary of the properties *)

(** The test in the error listener: the message that reaches the status
    line, if any. *)
Definition surfaced (e : ErrorEvent) : option string :=
  match Earth.error_message e with
  | Some m =>
      if Js.truthy (Some m) && negb (Js.includes m "glyph") && negb (Js.includes m "sprite")
      then Some m
      else None
  | None => None
  end.

(** The listeners the effect registers on the instance [m] it constructs. *)
Definition registered (m : MapId) : list (string * Listener) :=
  [("load", OnLoad m); ("error", OnError)].

(** The component holds the instance [m], which has its two listeners and
    was not removed yet. *)
Definition holding (m : MapId) (d : bool) (s : Sys) : Prop :=
  mapRef s = Some m /\
  exists w, widgets s !! m = Some w /\ listeners w = registered m /\
            setProjection_defined w = d /\ remove_calls w = 0.

(** What no listener touches: the two refs and, of every instance, its
    listeners, its [setProjection] and the calls of [remove]. *)
Definition untouched (s s' : Sys) : Prop :=
  mapRef s' = mapRef s /\
  mapContainer s' = mapContainer s /\
  listeners <$> widgets s' = listeners <$> widgets s /\
  setProjection_defined <$> widgets s' = setProjection_defined <$> widgets s /\
  remove_calls <$> widgets s' = remove_calls <$> widgets s.

(** A component mounted on the container [c] whose widget was constructed,
    after the events [evs]. *)
Definition mounted (c : Container) (d : bool) (evs : list (MapId * Event)) : Fiber :=
  deliver_all evs (mount (CtorReturns d) (Earth.initial (Some c))).

(** The instance the effect leaves behind when the constructor returns:
    the [n]-th, on the container [c], with its two listeners. *)
Definition constructed (c : Container) (d : bool) (n : MapId) : MapInstance :=
  {| options := Earth.map_options c; setProjection_defined := d;
     listeners := registered n; setProjection_calls := []; remove_calls := 0 |}.

(** The instance [w], the [i]-th constructed, is as the component leaves
    its instances: constructed on the container [c] with the component's
    options, carrying its own two listeners, removed never if it is the one
    the reference [held] names and once otherwise, and asked for no
    projection but the globe, and for none if it has no [setProjection]. *)
Definition instance_kept (c : Container) (held : option MapId) (i : MapId)
    (w : MapInstance) : Prop :=
  options w = Earth.map_options c /\
  listeners w = registered i /\
  (held = Some i -> remove_calls w = 0) /\
  (held <> Some i -> remove_calls w = 1) /\
  (exists k, setProjection_calls w = replicate k Earth.globe) /\
  (setProjection_defined w = false -> setProjection_calls w = []).

Definition well_kept (c : Container) (s : Sys) : Prop :=
  mapContainer s = Some c /\
  (forall m, mapRef s = Some m -> m < length (widgets s)) /\
  (forall i w, widgets s !! i = Some w -> instance_kept c (mapRef s) i w).

(** The forms the status text takes. *)
Definition status_shape (t : string) : Prop :=
  t = "Initializing Globe..." \/
  t = "" \/
  (exists m, t = "Error: " ++ m /\ m <> "" /\
             ~ Js.occurs_in "glyph" m /\ ~ Js.occurs_in "sprite" m) \/
  (exists x, t = "Initialization Failed: " ++ x).




(** Whether the action is a load event of the instance [i], and how many of
    the actions [acts] are. *)
Definition is_load_of (i : MapId) (a : Action) : bool :=
  match a with
  | Fire m Load => Nat.eqb m i
  | _ => false
  end.

Definition loads_of (i : MapId) (acts : list Action) : nat :=
  length (List.filter (is_load_of i) acts).

(** *** Cross-references of a style document *)

Module StyleCheck.

(** The names under [style.sources]. *)
Definition source_names (style : json) : list string :=
  match Json.get "sources" style with
  | Some srcs => map fst (Json.members srcs)
  | None => []
  end.

Definition field (k : string) (layer : json) : option string :=
  Json.get k layer ≫= Json.as_string.

(** [style.sources[name].type] *)
Definition source_type (style : json) (name : string) : option string :=
  match Json.get "sources" style with
  | Some srcs =>
      match Json.get name srcs with
      | Some def => field "type" def
      | None => None
      end
  | None => None
  end.

(** The layer types that draw from a source of the given type. *)
Definition draws_from (layer_type source_type : string) : bool :=
  if String.eqb source_type "raster" then String.eqb layer_type "raster"
  else if String.eqb source_type "vector" then
    existsb (String.eqb layer_type) ["fill"; "line"; "symbol"; "circle"; "fill-extrusion"; "heatmap"]
  else false.

(** A layer is resolved when it is a background layer without a source, or
    names a declared source of a type its own type draws from, and, for a
    vector source, a source layer. *)
Definition resolved (style layer : json) : bool :=
  match field "type" layer, field "source" layer with
  | Some "background", None => true
  | Some t, Some src =>
      match source_type style src with
      | Some st =>
          draws_from t st
          && (negb (String.eqb st "vector")
              || match field "source-layer" layer with Some _ => true | None => false end)
      | None => false
      end
  | _, _ => false
  end.

End StyleCheck.


(** * Properties *)

(** ** Substring search *)

Module JsFacts.

Lemma prefix_iff (sub s : string) :
  String.prefix sub s = true <-> exists b, s = sub ++ b.
Proof.
  revert s. induction sub as [|c sub IH]; intros s; simpl.
  - split; [intros _; now exists s | now destruct s].
  - destruct s as [|d s].
    + split; [discriminate | intros [b Hb]; discriminate].
    + simpl. destruct (Ascii.ascii_dec c d) as [->|Hcd].
      * rewrite IH. split; intros [b Hb]; exists b; congruence.
      * split; [discriminate | intros [b Hb]; congruence].
Qed.

Lemma includes_nil (sub : string) :
  Js.includes "" sub = String.prefix sub "".
Proof. now destruct sub. Qed.

Lemma includes_cons (c : ascii) (s sub : string) :
  Js.includes (String c s) sub =
    if String.prefix sub (String c s) then true else Js.includes s sub.
Proof. reflexivity. Qed.

(** [includes] decides occurrence. *)
Lemma includes_iff (s sub : string) :
  Js.includes s sub = true <-> Js.occurs_in sub s.
Proof.
  split.
  - induction s as [|c s IH].
    + rewrite includes_nil. intros Hp.
      apply prefix_iff in Hp as [b ->]. now exists "", b.
    + rewrite includes_cons. destruct (String.prefix sub _) eqn:Hp.
      * intros _. apply prefix_iff in Hp as [b Hb]. exists "", b. exact Hb.
      * intros H. destruct (IH H) as (a & b & ->). now exists (String c a), b.
  - intros (a & b & ->). induction a as [|c a IH].
    + assert (Hp : String.prefix sub (sub ++ b) = true)
        by (apply prefix_iff; now exists b).
      change ("" ++ sub ++ b) with (sub ++ b).
      destruct (sub ++ b); [now rewrite includes_nil | now rewrite includes_cons, Hp].
    + change (String c a ++ sub ++ b) with (String c (a ++ sub ++ b)).
      rewrite includes_cons, IH. now destruct (String.prefix _ _).
Qed.

Lemma includes_false_iff (s sub : string) :
  Js.includes s sub = false <-> ~ Js.occurs_in sub s.
Proof.
  rewrite <- includes_iff. destruct (Js.includes s sub); split; congruence.
Qed.

End JsFacts.

(** ** The listeners, one call at a time *)

Section Listeners.

Variable s : Sys.

Lemma on_error_completes (e : ErrorEvent) :
  fst (Earth.on_error e s) = Normal tt.
Proof.
  unfold Earth.on_error, bind, console_error. simpl.
  destruct (Earth.error_message e) as [m|]; [|reflexivity].
  now destruct (_ && _).
Qed.

Lemma on_error_run (e : ErrorEvent) :
  run (Earth.on_error e) s =
    let logged := with_console (console s ++ [ConsoleError "Map Error:" e]) s in
    match surfaced e with
    | Some m => with_status ("Error: " ++ m) logged
    | None => logged
    end.
Proof.
  unfold run, surfaced, Earth.on_error, bind, console_error. simpl.
  destruct (Earth.error_message e) as [m|]; [|reflexivity].
  now destruct (_ && _).
Qed.

Lemma on_load_completes (m : MapId) :
  fst (Earth.on_load m s) = Normal tt.
Proof.
  unfold Earth.on_load, bind, setStatus, console_log, map_has_setProjection. simpl.
  now destruct (from_option _ _ _).
Qed.

Lemma on_load_run (m : MapId) :
  run (Earth.on_load m) s =
    let logged :=
      with_console (console s ++ [ConsoleLog "Playful Globe Style Loaded"])
                   (with_status "" s) in
    if from_option setProjection_defined false (widgets s !! m)
    then with_widgets (alter (record_setProjection Earth.globe) m (widgets s)) logged
    else logged.
Proof.
  unfold run, Earth.on_load, bind, setStatus, console_log, map_has_setProjection. simpl.
  now destruct (from_option _ _ _).
Qed.

End Listeners.

(** Which messages reach the status line. *)
Lemma surfaced_some (e : ErrorEvent) (m : string) :
  surfaced e = Some m <->
  Earth.error_message e = Some m /\ m <> "" /\
  ~ Js.occurs_in "glyph" m /\ ~ Js.occurs_in "sprite" m.
Proof.
  unfold surfaced. rewrite <- !JsFacts.includes_false_iff.
  destruct (Earth.error_message e) as [m'|].
  - destruct m' as [|c m']; cbn [Js.truthy andb].
    + split; [discriminate | intros (H & Hne & _); congruence].
    + destruct (Js.includes (String c m') "glyph") eqn:Hg,
               (Js.includes (String c m') "sprite") eqn:Hs;
        cbn [andb negb]; split; try discriminate;
        try (intros ([= <-] & _ & Hg' & Hs'); congruence).
      intros [= <-]. repeat split; congruence.
  - split; [discriminate | intros (H & _); discriminate].
Qed.

Lemma surfaced_none (e : ErrorEvent) :
  surfaced e = None <->
  match Earth.error_message e with
  | None => True
  | Some m => m = "" \/ Js.occurs_in "glyph" m \/ Js.occurs_in "sprite" m
  end.
Proof.
  unfold surfaced. destruct (Earth.error_message e) as [m|]; [|tauto].
  rewrite <- !JsFacts.includes_iff.
  destruct m as [|c m]; cbn [Js.truthy andb]; [tauto|].
  destruct (Js.includes (String c m) "glyph"), (Js.includes (String c m) "sprite");
    cbn [andb negb]; split; auto; try discriminate.
  intros [H|[H|H]]; discriminate.
Qed.

(** ** The life of one component instance *)

Lemma run_bind (m : Eff unit) (k : unit -> Eff unit) (s : Sys) :
  fst (m s) = Normal tt -> run (bind m k) s = run (k tt) (run m s).
Proof. unfold run, bind. destruct (m s) as [[[]|e] s']; cbn; congruence. Qed.

Lemma run_bind_ret (m : Eff unit) (s : Sys) :
  run (bind m (fun _ => ret tt)) s = run m s.
Proof. unfold run, bind. now destruct (m s) as [[[]|e] s']. Qed.

Lemma fmap_alter_same {A B} (f : A -> B) (g : A -> A) (i : nat) (l : list A) :
  (forall x, f (g x) = f x) -> f <$> alter g i l = f <$> l.
Proof.
  intros H. revert i. induction l as [|x l IH]; intros [|i]; cbn; try reflexivity.
  - now rewrite H.
  - f_equal. apply IH.
Qed.

Lemma alter_last {A} (f : A -> A) (l : list A) (x : A) :
  alter f (length l) (l ++ [x])%list = (l ++ [f x])%list.
Proof.
  rewrite <- (Nat.add_0_r (length l)) at 1. now rewrite alter_app_r.
Qed.

Lemma sum_list_alter_S (i : nat) (l : list nat) :
  i < length l -> sum_list (alter S i l) = S (sum_list l).
Proof.
  revert i. induction l as [|x l IH]; intros [|i] H; cbn in *; try lia.
  rewrite IH; lia.
Qed.

(** *** Listeners leave the instances as they are *)

Lemma untouched_refl (s : Sys) : untouched s s.
Proof. now repeat split. Qed.

Lemma untouched_trans (s1 s2 s3 : Sys) :
  untouched s1 s2 -> untouched s2 s3 -> untouched s1 s3.
Proof.
  intros (A1 & B1 & C1 & D1 & E1) (A2 & B2 & C2 & D2 & E2).
  repeat split; congruence.
Qed.

Lemma on_error_untouched (e : ErrorEvent) (s : Sys) :
  untouched s (run (Earth.on_error e) s).
Proof. rewrite on_error_run. cbv zeta. destruct (surfaced e); now repeat split. Qed.

Lemma on_load_untouched (m : MapId) (s : Sys) :
  untouched s (run (Earth.on_load m) s).
Proof.
  rewrite on_load_run. cbv zeta. destruct (from_option _ _ _); [|now repeat split].
  repeat split; cbn; now apply fmap_alter_same.
Qed.

Lemma call_untouched (l : Listener) (ev : Event) (s : Sys) :
  fst (call l ev s) = Normal tt /\ untouched s (run (call l ev) s).
Proof.
  destruct l as [m|]; cbn [call].
  - split; [apply on_load_completes | apply on_load_untouched].
  - split; [apply on_error_completes | apply on_error_untouched].
Qed.

Lemma call_all_untouched (ls : list (string * Listener)) (ev : Event) (s : Sys) :
  untouched s (run (call_all ls ev) s).
Proof.
  revert s. induction ls as [|[name l] ls IH]; intros s; cbn [call_all].
  - apply untouched_refl.
  - destruct (String.eqb name (event_name ev)); [|apply IH].
    destruct (call_untouched l ev s) as [Hc Hu].
    rewrite run_bind by exact Hc. eapply untouched_trans; [exact Hu | apply IH].
Qed.

Lemma fire_untouched (m : MapId) (ev : Event) (s : Sys) :
  untouched s (run (fire m ev) s).
Proof.
  unfold run, fire. destruct (widgets s !! m) as [w|].
  - apply call_all_untouched.
  - apply untouched_refl.
Qed.

Lemma deliver_all_untouched (evs : list (MapId * Event)) (f : Fiber) :
  untouched (sys f) (sys (deliver_all evs f)).
Proof.
  revert f. induction evs as [|[m ev] evs IH]; intros f; [apply untouched_refl|].
  unfold deliver_all in *. cbn [fold_left].
  eapply untouched_trans; [|apply IH]. apply fire_untouched.
Qed.

Lemma deliver_all_cleanup (evs : list (MapId * Event)) (f : Fiber) :
  stored_cleanup (deliver_all evs f) = stored_cleanup f /\
  escaped (deliver_all evs f) = escaped f.
Proof.
  revert f. induction evs as [|mev evs IH]; intros f; [easy|].
  unfold deliver_all in *. cbn [fold_left]. now rewrite !(proj1 (IH _)), !(proj2 (IH _)).
Qed.

Lemma untouched_disposals (s s' : Sys) :
  untouched s s' -> disposals s' = disposals s.
Proof. intros (_ & _ & _ & _ & H). unfold disposals. now rewrite H. Qed.

Lemma untouched_holding (m : MapId) (d : bool) (s s' : Sys) :
  untouched s s' -> holding m d s -> holding m d s'.
Proof.
  intros (Hr & _ & Hl & Hd & Hn) (Hm & w & Hw & Hwl & Hwd & Hwn).
  split; [congruence|].
  apply (f_equal (fun l => l !! m)) in Hl. apply (f_equal (fun l => l !! m)) in Hd.
  apply (f_equal (fun l => l !! m)) in Hn. cbv beta in Hl, Hd, Hn.
  rewrite !list_lookup_fmap, Hw in Hl. rewrite !list_lookup_fmap, Hw in Hd.
  rewrite !list_lookup_fmap, Hw in Hn.
  destruct (widgets s' !! m) as [w'|]; [|discriminate].
  cbn in Hl, Hd, Hn. exists w'. repeat split; congruence.
Qed.

(** *** Events on the instance the component holds *)


Lemma fire_error_holding (m : MapId) (d : bool) (e : ErrorEvent) (s : Sys) :
  holding m d s -> run (fire m (Error e)) s = run (Earth.on_error e) s.
Proof.
  intros (_ & w & Hw & Hl & _). unfold run at 1, fire. rewrite Hw, Hl.
  apply (run_bind_ret (Earth.on_error e)).
Qed.

(** *** Mounting *)

Lemma mount_without_container (o : CtorOutcome) (s : Sys) :
  mapRef s = None -> mapContainer s = None ->
  mount o s = {| sys := s; stored_cleanup := None; escaped := None |}.
Proof.
  intros Hr Hc. unfold mount, Earth.effect, bind, read_mapRef, read_mapContainer.
  now rewrite Hr, Hc.
Qed.

Lemma mount_throws (e : ErrorObj) (c : Container) (s : Sys) :
  mapRef s = None -> mapContainer s = Some c ->
  mount (CtorThrows e) s =
    {| sys := with_status ("Initialization Failed: " ++ Js.template (message e)) s;
       stored_cleanup := Some Earth.cleanup; escaped := None |}.
Proof.
  intros Hr Hc. unfold mount, Earth.effect, bind, read_mapRef, read_mapContainer.
  now rewrite Hr, Hc.
Qed.

Lemma mount_returns (d : bool) (c : Container) (s : Sys) :
  mapRef s = None -> mapContainer s = Some c ->
  let f := mount (CtorReturns d) s in
  stored_cleanup f = Some Earth.cleanup /\
  escaped f = None /\
  holding (length (widgets s)) d (sys f) /\
  status (sys f) = status s /\
  disposals (sys f) = disposals s.
Proof.
  intros Hr Hc. cbv zeta.
  unfold mount, Earth.effect, bind, read_mapRef, read_mapContainer. rewrite Hr, Hc.
  unfold try_catch, bind, new_Map, write_mapRef, map_on. cbn.
  rewrite !alter_last. cbn. repeat split.
  - eexists. split; [apply list_lookup_middle; reflexivity|]. now repeat split.
  - unfold disposals. cbn. rewrite fmap_app, sum_list_with_app. cbn. lia.
Qed.

Lemma mounted_holding (c : Container) (d : bool) (evs : list (MapId * Event)) :
  holding 0 d (sys (mounted c d evs)).
Proof.
  eapply untouched_holding; [apply deliver_all_untouched|].
  now apply (mount_returns d c (Earth.initial (Some c))).
Qed.

(** *** The cleanup *)

Lemma cleanup_holding (m : MapId) (d : bool) (s : Sys) :
  holding m d s ->
  mapRef (run Earth.cleanup s) = None /\
  disposals (run Earth.cleanup s) = S (disposals s).
Proof.
  intros (Hr & w & Hw & _).
  unfold run, Earth.cleanup, bind, read_mapRef. rewrite Hr.
  unfold map_remove, write_mapRef, disposals. cbn. split; [reflexivity|].
  rewrite (list_fmap_alter remove_calls record_remove S) by now apply Forall_true.
  apply sum_list_alter_S. rewrite length_fmap. eapply lookup_lt_Some, Hw.
Qed.

Lemma cleanup_empty_handed (s : Sys) :
  mapRef s = None -> run Earth.cleanup s = s.
Proof.
  intros Hr. unfold run, Earth.cleanup, bind, read_mapRef. now rewrite Hr.
Qed.

(** ** What the effect and the cleanup do to the state *)

Lemma effect_skips (o : CtorOutcome) (s : Sys) (m : MapId) :
  mapRef s = Some m -> Earth.effect o s = (Normal None, s).
Proof. intros H. unfold Earth.effect, bind, read_mapRef. now rewrite H. Qed.

Lemma effect_returns (d : bool) (c : Container) (s : Sys) :
  mapRef s = None -> mapContainer s = Some c ->
  run (Earth.effect (CtorReturns d)) s =
    with_widgets (widgets s ++ [constructed c d (length (widgets s))])
                 (with_mapRef (Some (length (widgets s))) s).
Proof.
  intros Hr Hc. unfold run, Earth.effect, bind, read_mapRef, read_mapContainer.
  rewrite Hr, Hc. unfold try_catch, bind, new_Map, write_mapRef, map_on. cbn.
  now rewrite !alter_last.
Qed.

Lemma effect_throws (e : ErrorObj) (c : Container) (s : Sys) :
  mapRef s = None -> mapContainer s = Some c ->
  run (Earth.effect (CtorThrows e)) s =
    with_status ("Initialization Failed: " ++ Js.template (message e)) s.
Proof.
  intros Hr Hc. unfold run, Earth.effect, bind, read_mapRef, read_mapContainer.
  now rewrite Hr, Hc.
Qed.

Lemma effect_no_container (o : CtorOutcome) (s : Sys) :
  mapContainer s = None -> run (Earth.effect o) s = s.
Proof.
  intros Hc. unfold run, Earth.effect, bind, read_mapRef, read_mapContainer.
  destruct (mapRef s); [reflexivity|]. now rewrite Hc.
Qed.

Lemma effect_held (o : CtorOutcome) (s : Sys) (m : MapId) :
  mapRef s = Some m -> run (Earth.effect o) s = s.
Proof. intros H. unfold run. now rewrite (effect_skips o s m H). Qed.

Lemma cleanup_run (s : Sys) :
  run Earth.cleanup s =
    match mapRef s with
    | Some m => with_mapRef None (with_widgets (alter record_remove m (widgets s)) s)
    | None => s
    end.
Proof.
  unfold run, Earth.cleanup, bind, read_mapRef. now destruct (mapRef s).
Qed.

(** A property of the state that both listeners keep is kept by every
    event. *)
Lemma fire_preserves (P : Sys -> Prop) :
  (forall m s, P s -> P (run (Earth.on_load m) s)) ->
  (forall e s, P s -> P (run (Earth.on_error e) s)) ->
  forall m ev s, P s -> P (run (fire m ev) s).
Proof.
  intros Hload Herror m ev s HP. unfold run, fire.
  destruct (widgets s !! m) as [w|]; [|exact HP].
  change (P (run (call_all (listeners w) ev) s)).
  generalize (listeners w). intros ls. revert s HP.
  induction ls as [|[name l] ls IH]; intros s HP; cbn [call_all]; [exact HP|].
  destruct (String.eqb name (event_name ev)); [|now apply IH].
  rewrite run_bind by apply call_untouched. apply IH.
  destruct l as [k|]; cbn [call]; [now apply Hload | now apply Herror].
Qed.

Lemma steps_invariant (P : Sys -> Prop) :
  (forall a s, P s -> P (step s a)) ->
  forall acts s, P s -> P (steps acts s).
Proof.
  intros Hstep acts. induction acts as [|a acts IH]; intros s HP; [exact HP|].
  unfold steps in *. cbn [fold_left]. now apply IH, Hstep.
Qed.

(** ** What every sequence of effects, cleanups and events keeps *)

Lemma well_kept_initial (c : Container) : well_kept c (Earth.initial (Some c)).
Proof.
  split; [reflexivity|]. split; [discriminate|]. intros i w H. discriminate.
Qed.

Lemma well_kept_on_error (c : Container) (e : ErrorEvent) (s : Sys) :
  well_kept c s -> well_kept c (run (Earth.on_error e) s).
Proof.
  intros (Hc & Hlt & Hk). rewrite on_error_run. cbv zeta.
  destruct (surfaced e); (split; [exact Hc | split; [exact Hlt | exact Hk]]).
Qed.

Lemma well_kept_on_load (c : Container) (m : MapId) (s : Sys) :
  well_kept c s -> well_kept c (run (Earth.on_load m) s).
Proof.
  intros (Hc & Hlt & Hk). rewrite on_load_run. cbv zeta.
  destruct (from_option _ _ _) eqn:Hd; [|split; [exact Hc | split; [exact Hlt | exact Hk]]].
  split; [exact Hc|]. split.
  - cbn. intros k Hr. rewrite length_alter. now apply Hlt.
  - cbn. intros i w' Hw'. destruct (decide (m = i)) as [<-|Hne].
    + rewrite list_lookup_alter_eq in Hw'.
      destruct (widgets s !! m) as [w|] eqn:Hw; [|discriminate].
      injection Hw' as <-. cbn in Hd.
      destruct (Hk m w Hw) as (Ho & Hl & H0 & H1 & [k Hp] & _).
      repeat split; auto.
      * exists (S k). rewrite replicate_S_end, <- Hp. reflexivity.
      * cbn. congruence.
    + rewrite list_lookup_alter_ne in Hw' by exact Hne. now apply Hk.
Qed.

Lemma well_kept_fire (c : Container) (m : MapId) (ev : Event) (s : Sys) :
  well_kept c s -> well_kept c (run (fire m ev) s).
Proof.
  apply (fire_preserves (well_kept c)).
  - intros k. apply well_kept_on_load.
  - intros e. apply well_kept_on_error.
Qed.

Lemma well_kept_cleanup (c : Container) (s : Sys) :
  well_kept c s -> well_kept c (run Earth.cleanup s).
Proof.
  intros H. pose proof H as (Hc & Hlt & Hk). rewrite cleanup_run.
  destruct (mapRef s) as [m|] eqn:Hr; [|exact H].
  split; [exact Hc|]. split; [discriminate|].
  cbn. intros i w' Hw'. destruct (decide (m = i)) as [<-|Hne].
  - rewrite list_lookup_alter_eq in Hw'.
    destruct (widgets s !! m) as [w|] eqn:Hw; [|discriminate].
    injection Hw' as <-.
    destruct (Hk m w Hw) as (Ho & Hl & H0 & H1 & Hp & Hn).
    repeat split; auto; try discriminate. cbn. intros _. now rewrite H0.
  - rewrite list_lookup_alter_ne in Hw' by exact Hne.
    destruct (Hk i w' Hw') as (Ho & Hl & H0 & H1 & Hp & Hn).
    repeat split; auto; try discriminate. intros _. apply H1. congruence.
Qed.

Lemma well_kept_effect (c : Container) (o : CtorOutcome) (s : Sys) :
  well_kept c s -> well_kept c (run (Earth.effect o) s).
Proof.
  intros H. pose proof H as (Hc & Hlt & Hk).
  destruct (mapRef s) as [m|] eqn:Hr.
  - rewrite (effect_held o s m Hr). exact H.
  - destruct o as [e|d].
    + rewrite (effect_throws e c s Hr Hc).
      split; [exact Hc|]. split; cbn; now rewrite Hr.
    + rewrite (effect_returns d c s Hr Hc). split; [exact Hc|]. split.
      * cbn. intros m [= <-]. rewrite length_app. cbn. lia.
      * cbn. intros i w Hw. apply lookup_app_Some in Hw as [Hw|[Hge Hw]].
        -- pose proof (lookup_lt_Some _ _ _ Hw) as Hi.
           destruct (Hk i w Hw) as (Ho & Hl & H0 & H1 & Hp & Hn).
           repeat split; auto; try (intros _; apply H1; discriminate).
           intros [= E]. lia.
        -- apply list_lookup_singleton_Some in Hw as [Hi <-].
           assert (i = length (widgets s)) as -> by lia.
           repeat split; auto; try congruence. now exists 0.
Qed.

Lemma well_kept_steps (c : Container) (acts : list Action) :
  well_kept c (steps acts (Earth.initial (Some c))).
Proof.
  apply steps_invariant; [|apply well_kept_initial].
  intros [o| |m ev] s H; cbn [step].
  - now apply well_kept_effect.
  - now apply well_kept_cleanup.
  - now apply well_kept_fire.
Qed.

(** ** Unmount *)

Lemma sys_mount (o : CtorOutcome) (s : Sys) :
  sys (mount o s) = run (Earth.effect o) s.
Proof. unfold mount, run. now destruct (Earth.effect o s) as [[cl|e] s']. Qed.

Lemma unmount_counts (s : Sys) (o : CtorOutcome) (evs : list (MapId * Event)) :
  mapRef s = None ->
  let s' := unmount (deliver_all evs (mount o s)) in
  mapRef s' = None /\
  disposals s' =
    disposals s +
    match mapContainer s, o with
    | Some _, CtorReturns _ => 1
    | _, _ => 0
    end.
Proof.
  intros Hr. cbv zeta. unfold unmount.
  rewrite (proj1 (deliver_all_cleanup _ _)).
  pose proof (deliver_all_untouched evs (mount o s)) as Hu.
  destruct (mapContainer s) as [c|] eqn:Hc.
  - destruct o as [e|d].
    + rewrite (mount_throws e c s Hr Hc) in *. cbn [stored_cleanup sys] in *.
      rewrite cleanup_empty_handed by (rewrite (proj1 Hu); exact Hr).
      split; [rewrite (proj1 Hu); exact Hr|].
      rewrite (untouched_disposals _ _ Hu). unfold disposals. cbn. lia.
    + destruct (mount_returns d c s Hr Hc) as (Hcl & _ & Hh & _ & Hd).
      rewrite Hcl.
      destruct (cleanup_holding _ d _ (untouched_holding _ _ _ _ Hu Hh)) as [H1 H2].
      split; [exact H1|]. rewrite H2, (untouched_disposals _ _ Hu), Hd. lia.
  - rewrite (mount_without_container o s Hr Hc) in *. cbn [stored_cleanup sys] in *.
    split; [rewrite (proj1 Hu); exact Hr|].
    rewrite (untouched_disposals _ _ Hu). lia.
Qed.

(** Which instance the unmount removes: the one the mount constructed, and
    no other. *)
Lemma unmount_removes_held (s : Sys) (o : CtorOutcome) (evs : list (MapId * Event)) :
  mapRef s = None ->
  let f := deliver_all evs (mount o s) in
  match mapContainer s, o with
  | Some _, CtorReturns _ =>
      mapRef (sys f) = Some (length (widgets s)) /\
      remove_calls <$> widgets (sys f) = ((remove_calls <$> widgets s) ++ [0])%list /\
      remove_calls <$> widgets (unmount f) = ((remove_calls <$> widgets s) ++ [1])%list
  | _, _ =>
      mapRef (sys f) = None /\
      remove_calls <$> widgets (unmount f) = remove_calls <$> widgets s
  end.
Proof.
  intros Hr. cbv zeta. unfold unmount.
  rewrite (proj1 (deliver_all_cleanup _ _)).
  destruct (deliver_all_untouched evs (mount o s)) as (Hm & _ & _ & _ & Hn).
  rewrite sys_mount in Hm, Hn.
  destruct (mapContainer s) as [c|] eqn:Hc.
  - destruct o as [e|d].
    + assert (Hcl : stored_cleanup (mount (CtorThrows e) s) = Some Earth.cleanup)
        by now rewrite (mount_throws e c s Hr Hc).
      rewrite Hcl. rewrite (effect_throws e c s Hr Hc) in Hm, Hn. cbn in Hm, Hn.
      rewrite cleanup_empty_handed by congruence. split; congruence.
    + rewrite (proj1 (mount_returns d c s Hr Hc)).
      rewrite (effect_returns d c s Hr Hc) in Hm, Hn. cbn in Hm, Hn.
      rewrite fmap_app in Hn. cbn in Hn.
      split; [exact Hm|]. split; [exact Hn|].
      rewrite cleanup_run, Hm. cbn.
      rewrite (list_fmap_alter remove_calls record_remove S) by now apply Forall_true.
      rewrite Hn. rewrite <- (length_fmap remove_calls (widgets s)).
      apply alter_last.
  - assert (Hcl : stored_cleanup (mount o s) = None)
      by now rewrite (mount_without_container o s Hr Hc).
    rewrite Hcl. rewrite (effect_no_container o s Hc) in Hm, Hn.
    destruct o; split; congruence.
Qed.

(** C1, as the code has it.  Take a component whose instance reference is
    null, as it is before a mount.  Whatever happens before the unmount (the
    container absent or present, the constructor throwing or returning, any
    events in between), after the unmount the instance reference is null
    again.  When the effect constructed a widget, the reference names that
    instance up to the unmount, and the cleanup calls the [remove] of that
    instance exactly once and that of no other instance; when the
    constructor threw or the container was absent there is no instance to
    name, and no [remove] is called at all. *)
Theorem unmount_clears_and_disposes_what_was_built
    (s : Sys) (o : CtorOutcome) (evs : list (MapId * Event)) :
  mapRef s = None ->
  let f := deliver_all evs (mount o s) in
  let s' := unmount f in
  mapRef s' = None /\
  disposals s' =
    disposals s +
    match mapContainer s, o with
    | Some _, CtorReturns _ => 1
    | _, _ => 0
    end /\
  match mapContainer s, o with
  | Some _, CtorReturns _ =>
      mapRef (sys f) = Some (length (widgets s)) /\
      remove_calls <$> widgets (sys f) = ((remove_calls <$> widgets s) ++ [0])%list /\
      remove_calls <$> widgets s' = ((remove_calls <$> widgets s) ++ [1])%list
  | _, _ =>
      mapRef (sys f) = None /\
      remove_calls <$> widgets s' = remove_calls <$> widgets s
  end.
Proof.
  intros Hr. cbv zeta.
  destruct (unmount_counts s o evs Hr) as [H1 H2].
  split; [exact H1|]. split; [exact H2|]. now apply unmount_removes_held.
Qed.

Lemma unmount_of_second_mount_removes_second_instance :
  let s := unmount (mount (CtorReturns true) (Earth.initial (Some 0))) in
  let evs := [(1, Load); (0, Load);
              (1, Error {| error := Some {| message := Some "WebGL context lost" |} |})] in
  mapRef s = None /\
  mapRef (unmount (deliver_all evs (mount (CtorReturns true) s))) = None /\
  remove_calls <$> widgets s = [1] /\
  remove_calls <$> widgets (unmount (deliver_all evs (mount (CtorReturns true) s))) = [1; 1].
Proof.
  cbv zeta. split; [reflexivity|].
  destruct (unmount_clears_and_disposes_what_was_built
              (unmount (mount (CtorReturns true) (Earth.initial (Some 0))))
              (CtorReturns true)
              [(1, Load); (0, Load);
               (1, Error {| error := Some {| message := Some "WebGL context lost" |} |})]
              eq_refl) as (H1 & _ & _ & _ & H3).
  split; [exact H1|]. split; [reflexivity|]. exact H3.
Defined.

(** C1 as stated fails: when the constructor throws, or when there is no
    container, the unmount disposes of nothing. *)
Lemma unmount_without_widget_disposes_nothing :
  disposals (unmount (mount (CtorThrows {| message := Some "invalid container" |})
                            (Earth.initial (Some 0)))) <> 1
  /\ disposals (unmount (mount (CtorReturns true) (Earth.initial None))) <> 1.
Proof. split; vm_compute; discriminate. Qed.

(** ** Asynchronous errors *)

(** C2.  An error event whose message contains "glyph" or "sprite" changes
    nothing about the status: the listener completes without calling
    [setStatus], in any state, and so does the delivery of such an event to
    the widget of a mounted component. *)
Theorem glyph_sprite_errors_suppressed (e : ErrorEvent) (m : string) :
  Earth.error_message e = Some m ->
  Js.occurs_in "glyph" m \/ Js.occurs_in "sprite" m ->
  (forall s,
      fst (Earth.on_error e s) = Normal tt /\
      status (run (Earth.on_error e) s) = status s /\
      setStatus_calls (run (Earth.on_error e) s) = setStatus_calls s) /\
  (forall c d evs,
      let f := mounted c d evs in
      status (sys (deliver f (0, Error e))) = status (sys f) /\
      setStatus_calls (sys (deliver f (0, Error e))) = setStatus_calls (sys f)).
Proof.
  intros Hm Hocc.
  assert (Hs : surfaced e = None).
  { apply surfaced_none. rewrite Hm. now right. }
  assert (H : forall s, status (run (Earth.on_error e) s) = status s /\
                        setStatus_calls (run (Earth.on_error e) s) = setStatus_calls s).
  { intros s. rewrite on_error_run, Hs. now split. }
  split.
  - intros s. split; [apply on_error_completes | apply H].
  - intros c d evs f. unfold deliver. cbn [sys fst snd].
    rewrite (fire_error_holding 0 d) by apply mounted_holding. apply H.
Qed.

Lemma glyph_fetch_failed_suppressed :
  let e := {| error := Some {| message := Some "glyph fetch failed" |} |} in
  Earth.error_message e = Some "glyph fetch failed" /\
  (Js.occurs_in "glyph" "glyph fetch failed" \/
   Js.occurs_in "sprite" "glyph fetch failed") /\
  status (sys (deliver (mounted 0 true [(0, Load)]) (0, Error e))) = "" /\
  status (sys (deliver (mounted 0 true []) (0, Error e))) = "Initializing Globe...".
Proof.
  cbv zeta.
  assert (Hocc : Js.occurs_in "glyph" "glyph fetch failed" \/
                 Js.occurs_in "sprite" "glyph fetch failed")
    by (left; now exists "", " fetch failed").
  split; [reflexivity|]. split; [exact Hocc|].
  pose proof (glyph_sprite_errors_suppressed
                {| error := Some {| message := Some "glyph fetch failed" |} |}
                "glyph fetch failed" eq_refl Hocc) as [_ H].
  split.
  - rewrite (proj1 (H 0 true [(0, Load)])). reflexivity.
  - rewrite (proj1 (H 0 true [])). reflexivity.
Defined.

(** C3, as the code has it.  An error event whose message is a non-empty
    string containing neither "glyph" nor "sprite" sets the status to
    "Error: " followed by the message. *)
Theorem other_errors_surfaced (e : ErrorEvent) (m : string) :
  Earth.error_message e = Some m ->
  m <> "" ->
  ~ Js.occurs_in "glyph" m ->
  ~ Js.occurs_in "sprite" m ->
  (forall s,
      fst (Earth.on_error e s) = Normal tt /\
      status (run (Earth.on_error e) s) = "Error: " ++ m) /\
  (forall c d evs,
      status (sys (deliver (mounted c d evs) (0, Error e))) = "Error: " ++ m).
Proof.
  intros Hm Hne Hg Hsp.
  assert (Hs : surfaced e = Some m) by now apply surfaced_some.
  assert (H : forall s, status (run (Earth.on_error e) s) = "Error: " ++ m).
  { intros s. now rewrite on_error_run, Hs. }
  split.
  - intros s. split; [apply on_error_completes | apply H].
  - intros c d evs. unfold deliver. cbn [sys fst snd].
    rewrite (fire_error_holding 0 d) by apply mounted_holding. apply H.
Qed.

Lemma webgl_context_lost_surfaced :
  let e := {| error := Some {| message := Some "WebGL context lost" |} |} in
  Earth.error_message e = Some "WebGL context lost" /\
  "WebGL context lost" <> "" /\
  ~ Js.occurs_in "glyph" "WebGL context lost" /\
  ~ Js.occurs_in "sprite" "WebGL context lost" /\
  status (sys (deliver (mounted 0 true []) (0, Error e))) = "Error: WebGL context lost".
Proof.
  cbv zeta.
  assert (Hg : ~ Js.occurs_in "glyph" "WebGL context lost")
    by (apply JsFacts.includes_false_iff; reflexivity).
  assert (Hs : ~ Js.occurs_in "sprite" "WebGL context lost")
    by (apply JsFacts.includes_false_iff; reflexivity).
  assert (Hne : "WebGL context lost" <> "") by discriminate.
  repeat (split; [assumption || reflexivity|]).
  exact (proj2 (other_errors_surfaced
                  {| error := Some {| message := Some "WebGL context lost" |} |}
                  "WebGL context lost" eq_refl Hne Hg Hs) 0 true []).
Defined.

(** C3 as stated fails for the empty message: it is present and contains
    neither word, yet the status keeps its value. *)
Lemma empty_message_not_surfaced :
  let e := {| error := Some {| message := Some "" |} |} in
  Earth.error_message e = Some "" /\
  Js.includes "" "glyph" = false /\
  Js.includes "" "sprite" = false /\
  status (sys (deliver (mounted 0 true []) (0, Error e))) = "Initializing Globe..." /\
  status (sys (deliver (mounted 0 true []) (0, Error e))) <> "Error: " ++ "".
Proof. cbv zeta. repeat split. vm_compute. discriminate. Qed.

(** C10.  An error event without an error object, or whose error has no
    message or the empty message, never changes the status. *)
Theorem messageless_errors_ignored (e : ErrorEvent) :
  error e = None \/
  error e = Some {| message := None |} \/
  error e = Some {| message := Some "" |} ->
  (forall s,
      fst (Earth.on_error e s) = Normal tt /\
      status (run (Earth.on_error e) s) = status s /\
      setStatus_calls (run (Earth.on_error e) s) = setStatus_calls s) /\
  (forall c d evs,
      let f := mounted c d evs in
      status (sys (deliver f (0, Error e))) = status (sys f) /\
      setStatus_calls (sys (deliver f (0, Error e))) = setStatus_calls (sys f)).
Proof.
  intros He.
  assert (Hs : surfaced e = None).
  { apply surfaced_none. unfold Earth.error_message.
    destruct He as [-> | [-> | ->]]; cbn; auto. }
  assert (H : forall s, status (run (Earth.on_error e) s) = status s /\
                        setStatus_calls (run (Earth.on_error e) s) = setStatus_calls s).
  { intros s. rewrite on_error_run, Hs. now split. }
  split.
  - intros s. split; [apply on_error_completes | apply H].
  - intros c d evs f. unfold deliver. cbn [sys fst snd].
    rewrite (fire_error_holding 0 d) by apply mounted_holding. apply H.
Qed.

Lemma error_without_object_ignored :
  let e := {| error := None |} in
  (error e = None \/
   error e = Some {| message := None |} \/
   error e = Some {| message := Some "" |}) /\
  status (sys (deliver (mounted 0 true []) (0, Error e))) = "Initializing Globe..." /\
  setStatus_calls (sys (deliver (mounted 0 true []) (0, Error e))) = [].
Proof.
  cbv zeta. split; [now left|].
  pose proof (messageless_errors_ignored {| error := None |} (or_introl eq_refl)) as [_ H].
  destruct (H 0 true []) as [H1 H2]. split.
  - rewrite H1. reflexivity.
  - rewrite H2. reflexivity.
Defined.

(** ** Construction failures *)

(** C4.  When the constructor throws an exception with message [m], the
    effect completes normally: the exception is caught, nothing escapes to
    the framework, no instance is recorded, and the status becomes
    "Initialization Failed: " followed by [m]. *)
Theorem construction_failure_caught
    (e : ErrorObj) (m : string) (c : Container) (s : Sys) :
  message e = Some m ->
  mapRef s = None ->
  mapContainer s = Some c ->
  let f := mount (CtorThrows e) s in
  fst (Earth.effect (CtorThrows e) s) = Normal (Some Earth.cleanup) /\
  escaped f = None /\
  status (sys f) = "Initialization Failed: " ++ m /\
  mapRef (sys f) = None /\
  widgets (sys f) = widgets s.
Proof.
  intros Hm Hr Hc. unfold mount, Earth.effect, bind, read_mapRef.
  rewrite Hr. unfold read_mapContainer. rewrite Hc.
  unfold try_catch, new_Map, setStatus, ret. cbn. rewrite Hm, Hr. now repeat split.
Qed.

Lemma invalid_container_failure_caught :
  let e := {| message := Some "invalid container" |} in
  let s := Earth.initial (Some 0) in
  message e = Some "invalid container" /\
  mapRef s = None /\
  mapContainer s = Some 0 /\
  escaped (mount (CtorThrows e) s) = None /\
  status (sys (mount (CtorThrows e) s)) = "Initialization Failed: invalid container".
Proof.
  cbv zeta. do 3 (split; [reflexivity|]).
  pose proof (construction_failure_caught
                {| message := Some "invalid container" |} "invalid container" 0
                (Earth.initial (Some 0)) eq_refl eq_refl eq_refl) as (_ & H1 & H2 & _).
  split; [exact H1 | exact H2].
Defined.

(** ** The load event *)

Lemma fire_load_registered (m : MapId) (s : Sys) (w : MapInstance) :
  widgets s !! m = Some w -> listeners w = registered m ->
  run (fire m Load) s = run (Earth.on_load m) s.
Proof.
  intros Hw Hl. unfold run at 1, fire. rewrite Hw, Hl.
  apply (run_bind_ret (Earth.on_load m)).
Qed.

Lemma fire_error_registered (m : MapId) (e : ErrorEvent) (s : Sys) (w : MapInstance) :
  widgets s !! m = Some w -> listeners w = registered m ->
  run (fire m (Error e)) s = run (Earth.on_error e) s.
Proof.
  intros Hw Hl. unfold run at 1, fire. rewrite Hw, Hl.
  apply (run_bind_ret (Earth.on_error e)).
Qed.

(** The load listener of the instance [m], called in any state in which
    that instance exists. *)
Lemma on_load_at (m : MapId) (s : Sys) (w : MapInstance) :
  widgets s !! m = Some w ->
  let s' := run (Earth.on_load m) s in
  status s' = "" /\
  projection_calls m s' =
    (setProjection_calls w ++ (if setProjection_defined w then [Earth.globe] else []))%list /\
  (forall j, j <> m -> projection_calls j s' = projection_calls j s).
Proof.
  intros Hw. cbv zeta. rewrite on_load_run. cbv zeta. unfold projection_calls.
  rewrite Hw. cbn [from_option].
  destruct (setProjection_defined w);
    cbn [widgets status with_widgets with_console with_status].
  - split; [reflexivity|]. split.
    + now rewrite list_lookup_alter_eq, Hw.
    + intros j Hj. now rewrite list_lookup_alter_ne by congruence.
  - split; [reflexivity|]. split; [|reflexivity].
    rewrite Hw. cbn. now rewrite app_nil_r.
Qed.

(** C5, as the code has it.  The load listener of an instance, called in
    any state in which the instance exists, completes, empties the status
    and calls [setProjection] with the globe projection exactly once on that
    instance when the instance has the method, and not at all when it has
    none; it calls nothing on any other instance.  So does the delivery of
    "load" to any instance the component ever constructed, in any state the
    component reaches by effect executions, cleanups and events. *)
Theorem load_clears_status_and_reasserts_projection :
  (forall (m : MapId) (s : Sys) (w : MapInstance),
      widgets s !! m = Some w ->
      let s' := run (Earth.on_load m) s in
      fst (Earth.on_load m s) = Normal tt /\
      status s' = "" /\
      projection_calls m s' =
        (setProjection_calls w
           ++ (if setProjection_defined w then [Earth.globe] else []))%list /\
      (forall j, j <> m -> projection_calls j s' = projection_calls j s)) /\
  (forall (c : Container) (acts : list Action) (i : MapId) (w : MapInstance),
      let s := steps acts (Earth.initial (Some c)) in
      widgets s !! i = Some w ->
      let s' := run (fire i Load) s in
      status s' = "" /\
      projection_calls i s' =
        (setProjection_calls w
           ++ (if setProjection_defined w then [Earth.globe] else []))%list /\
      (forall j, j <> i -> projection_calls j s' = projection_calls j s)).
Proof.
  split.
  - intros m s w Hw. cbv zeta. split; [apply on_load_completes|].
    now apply on_load_at.
  - intros c acts i w. cbv zeta. intros Hw.
    destruct (well_kept_steps c acts) as (_ & _ & Hk).
    destruct (Hk i w Hw) as (_ & Hl & _).
    rewrite (fire_load_registered i _ w Hw Hl). now apply on_load_at.
Qed.

Lemma load_on_second_instance_reasserts_on_it :
  let acts := [RunEffect (CtorReturns false); Fire 0 Load; RunCleanup;
               RunEffect (CtorReturns true)] in
  let s := steps acts (Earth.initial (Some 0)) in
  (exists w, widgets s !! 1 = Some w /\ setProjection_defined w = true) /\
  status (run (fire 1 Load) s) = "" /\
  projection_calls 1 (run (fire 1 Load) s) = [Earth.globe] /\
  projection_calls 0 (run (fire 1 Load) s) = [].
Proof.
  cbv zeta. split; [eexists; split; reflexivity|].
  destruct (proj2 load_clears_status_and_reasserts_projection 0
              [RunEffect (CtorReturns false); Fire 0 Load; RunCleanup;
               RunEffect (CtorReturns true)] 1 _ eq_refl) as (H1 & H2 & H3).
  split; [exact H1|]. split; [exact H2|].
  rewrite (H3 0) by discriminate. reflexivity.
Defined.

(** C5 as stated fails on an instance without [setProjection]: the load
    listener clears the status and calls nothing. *)
Lemma load_without_setProjection_reasserts_nothing :
  let s' := sys (deliver (mounted 0 false []) (0, Load)) in
  status s' = "" /\ projection_calls 0 s' = [] /\ length (projection_calls 0 s') <> 1.
Proof. cbv zeta. repeat split. vm_compute. discriminate. Qed.

(** ** Repeated executions of the effect *)

Lemma steps_without_container (acts : list Action) :
  steps acts (Earth.initial None) = Earth.initial None.
Proof.
  apply (steps_invariant (fun s => s = Earth.initial None)); [|reflexivity].
  intros [o| |m ev] s ->; cbn [step].
  - now apply effect_no_container.
  - now rewrite cleanup_run.
  - reflexivity.
Qed.

(** C6, as the code has it.  While the instance reference is set, an
    execution of the effect does nothing at all.  Over every sequence of
    effect executions, cleanups and events on one component instance, an
    instance that was constructed and not yet removed is the one the
    reference names; so at most one such instance exists at any time, and a
    new one is constructed only after the cleanup removed the previous one
    and cleared the reference. *)
Theorem at_most_one_instance_alive :
  (forall o s m,
      mapRef s = Some m ->
      Earth.effect o s = (Normal None, s)) /\
  (forall (c : option Container) (acts : list Action),
      let s := steps acts (Earth.initial c) in
      (forall i w,
          widgets s !! i = Some w -> remove_calls w = 0 -> mapRef s = Some i) /\
      (forall i j wi wj,
          widgets s !! i = Some wi -> widgets s !! j = Some wj ->
          remove_calls wi = 0 -> remove_calls wj = 0 -> i = j)).
Proof.
  split; [exact effect_skips|].
  intros c acts. cbv zeta.
  assert (H : forall i w,
             widgets (steps acts (Earth.initial c)) !! i = Some w ->
             remove_calls w = 0 -> mapRef (steps acts (Earth.initial c)) = Some i).
  { destruct c as [c|].
    - destruct (well_kept_steps c acts) as (_ & _ & Hk).
      intros i w Hw H0. destruct (Hk i w Hw) as (_ & _ & _ & H1 & _).
      destruct (decide (mapRef (steps acts (Earth.initial (Some c))) = Some i)) as [E|E];
        [exact E|]. specialize (H1 E). lia.
    - rewrite steps_without_container. intros i w Hw. discriminate. }
  split; [exact H|].
  intros i j wi wj Hi Hj Hi0 Hj0.
  pose proof (H i wi Hi Hi0) as Ei. pose proof (H j wj Hj Hj0) as Ej. congruence.
Qed.

Lemma second_execution_skips_construction :
  let s := run (Earth.effect (CtorReturns true)) (Earth.initial (Some 0)) in
  let acts := [RunEffect (CtorReturns true); RunEffect (CtorReturns true);
               RunCleanup; RunEffect (CtorReturns false)] in
  mapRef s = Some 0 /\
  Earth.effect (CtorReturns true) s = (Normal None, s) /\
  remove_calls <$> widgets (steps acts (Earth.initial (Some 0))) = [1; 0] /\
  mapRef (steps acts (Earth.initial (Some 0))) = Some 1.
Proof.
  cbv zeta. split; [reflexivity|]. split.
  - apply (proj1 at_most_one_instance_alive (CtorReturns true) _ 0). reflexivity.
  - split; [reflexivity|].
    exact (proj1 (proj2 at_most_one_instance_alive (Some 0)
                    [RunEffect (CtorReturns true); RunEffect (CtorReturns true);
                     RunCleanup; RunEffect (CtorReturns false)])
                 1 _ eq_refl eq_refl).
Defined.

(** C6 as stated fails: when the cleanup runs between two executions of the
    effect, as it does whenever the framework executes an effect again, the
    second execution constructs a second instance. *)
Lemma remount_constructs_a_second_instance :
  let acts := [RunEffect (CtorReturns true); RunCleanup; RunEffect (CtorReturns true)] in
  length (widgets (steps acts (Earth.initial (Some 0)))) = 2 /\
  ~ length (widgets (steps acts (Earth.initial (Some 0)))) <= 1.
Proof. cbv zeta. split; [reflexivity|]. cbn. lia. Qed.

(** The guard concerns executions while the reference is set.  After the
    cleanup the reference is null again: the next execution constructs a new
    instance, the first one having been removed. *)
Example remount_after_cleanup :
  let s1 := run (Earth.effect (CtorReturns true)) (Earth.initial (Some 0)) in
  let s2 := run (Earth.effect (CtorReturns true)) (run Earth.cleanup s1) in
  mapRef s2 = Some 1 /\ remove_calls <$> widgets s2 = [1; 0].
Proof. split; reflexivity. Qed.

(** ** The style document *)

(** C7.  The layers of the style document are nine, with these ids in this
    order. *)
Theorem layer_order :
  map Style.layer_id (Style.layers PLAYFUL_GLOBE_STYLE) =
    map Some
      ["background"; "terrain-raster"; "water-fill"; "coastline-glow";
       "landcover-green"; "landuse-green"; "continent-label"; "country-label";
       "city-label"].
Proof. reflexivity. Qed.

(** C9.  The paint and layout values of the document that depend on the zoom
    are two, the text sizes of the country and city labels; each is a linear
    interpolation over the zoom, with breakpoints (2, 10), (5, 14) for the
    countries and (3, 9), (8, 12) for the cities. *)
Theorem zoom_interpolation_breakpoints :
  map (fun '(id, section, property, v) => (id, section, property, Style.linear_zoom_stops v))
      (Style.zoom_interpolated PLAYFUL_GLOBE_STYLE) =
    [ (Some "country-label", "layout", "text-size", Some [(2, 10); (5, 14)]%Q);
      (Some "city-label", "layout", "text-size", Some [(3, 9); (8, 12)]%Q) ].
Proof. reflexivity. Qed.

(** The text of a value: no whitespace, numbers in plain decimal notation. *)
Example text_offset_text :
  JsonText.stringify (JArr [JNum 0; JNum (-0.5)]) = Some "[0,-0.5]".
Proof. reflexivity. Qed.

Example fog_range_read :
  JsonText.parse " [ 1 , 15 ] " = Some (JArr [JNum 1; JNum 15]).
Proof. reflexivity. Qed.

(** C8.  The style document is a well-formed JSON object; writing it as
    JSON text and reading the text back yields the document itself, so the
    order of the layers and every source, paint, layout, filter, glyph,
    sprite and fog parameter are reproduced. *)
Theorem style_round_trip :
  JsonText.well_formed PLAYFUL_GLOBE_STYLE = true /\
  JsonText.round_trip PLAYFUL_GLOBE_STYLE = Some PLAYFUL_GLOBE_STYLE /\
  option_map (fun v => map Style.layer_id (Style.layers v))
             (JsonText.round_trip PLAYFUL_GLOBE_STYLE) =
    Some (map Style.layer_id (Style.layers PLAYFUL_GLOBE_STYLE)).
Proof.
  assert (H : JsonText.round_trip PLAYFUL_GLOBE_STYLE = Some PLAYFUL_GLOBE_STYLE)
    by (vm_compute; reflexivity).
  split; [vm_compute; reflexivity|]. split; [exact H|]. now rewrite H.
Qed.

(** * Further properties of the component *)

(** ** Instances, over every sequence of effects, cleanups and events *)

(** X1.  Whatever sequence of effect executions, cleanups and events a
    component with a container goes through, the instance reference names an
    instance that exists and that was never removed, and every other
    instance constructed so far was removed exactly once: no instance is
    leaked once the reference is cleared, and none is disposed of twice. *)
Theorem instances_removed_once_unless_held (c : Container) (acts : list Action) :
  let s := steps acts (Earth.initial (Some c)) in
  (forall m, mapRef s = Some m -> is_Some (widgets s !! m)) /\
  (forall i w, widgets s !! i = Some w ->
     (mapRef s = Some i -> remove_calls w = 0) /\
     (mapRef s <> Some i -> remove_calls w = 1)).
Proof.
  cbv zeta. destruct (well_kept_steps c acts) as (_ & Hlt & Hk). split.
  - intros m Hm. apply lookup_lt_is_Some. now apply Hlt.
  - intros i w Hw. destruct (Hk i w Hw) as (_ & _ & H0 & H1 & _). now split.
Qed.

Lemma remount_removes_first_instance_once :
  let acts := [RunEffect (CtorReturns true); Fire 0 Load; RunCleanup;
               RunEffect (CtorThrows {| message := None |});
               RunEffect (CtorReturns false); Fire 0 Load] in
  let s := steps acts (Earth.initial (Some 0)) in
  mapRef s = Some 1 /\
  (exists w, widgets s !! 0 = Some w /\ remove_calls w = 1) /\
  (exists w, widgets s !! 1 = Some w /\ remove_calls w = 0).
Proof.
  cbv zeta. split; [reflexivity|].
  pose proof (instances_removed_once_unless_held 0
                [RunEffect (CtorReturns true); Fire 0 Load; RunCleanup;
                 RunEffect (CtorThrows {| message := None |});
                 RunEffect (CtorReturns false); Fire 0 Load]) as [_ H].
  split; eexists; (split; [reflexivity|]).
  - apply (H 0 _ eq_refl). discriminate.
  - apply (H 1 _ eq_refl). reflexivity.
Defined.

(** X2.  The cleanup is idempotent: run a second time, it changes nothing,
    in any state; in particular it never removes an instance twice. *)
Theorem cleanup_idempotent (s : Sys) :
  run Earth.cleanup (run Earth.cleanup s) = run Earth.cleanup s.
Proof.
  rewrite (cleanup_run s). destruct (mapRef s) as [m|] eqn:Hr.
  - now rewrite cleanup_run.
  - now rewrite cleanup_run, Hr.
Qed.

(** X3.  Every instance the component ever constructs carries exactly two
    listeners, one for "load" that refers to that very instance and one for
    "error"; no event, cleanup or later execution of the effect adds or
    drops a listener. *)
Theorem instances_keep_their_two_listeners
    (c : Container) (acts : list Action) (i : MapId) (w : MapInstance) :
  widgets (steps acts (Earth.initial (Some c))) !! i = Some w ->
  listeners w = [("load", OnLoad i); ("error", OnError)].
Proof.
  intros Hw. destruct (well_kept_steps c acts) as (_ & _ & Hk).
  now destruct (Hk i w Hw) as (_ & Hl & _).
Qed.

Lemma second_instance_has_its_own_listeners :
  let acts := [RunEffect (CtorReturns true); RunCleanup; RunEffect (CtorReturns true);
               Fire 1 Load] in
  exists w,
    widgets (steps acts (Earth.initial (Some 0))) !! 1 = Some w /\
    listeners w = [("load", OnLoad 1); ("error", OnError)].
Proof.
  cbv zeta. eexists. split; [reflexivity|].
  exact (instances_keep_their_two_listeners 0
           [RunEffect (CtorReturns true); RunCleanup; RunEffect (CtorReturns true);
            Fire 1 Load] 1 _ eq_refl).
Defined.

(** X4.  Every instance the component ever constructs was constructed on the
    component's container, with the style document as its style and the
    globe as its projection. *)
Theorem instances_bound_to_container_and_style
    (c : Container) (acts : list Action) (i : MapId) (w : MapInstance) :
  widgets (steps acts (Earth.initial (Some c))) !! i = Some w ->
  container (options w) = c /\
  style (options w) = PLAYFUL_GLOBE_STYLE /\
  projection (options w) = {| type := "globe" |}.
Proof.
  intros Hw. destruct (well_kept_steps c acts) as (_ & _ & Hk).
  destruct (Hk i w Hw) as (Ho & _). rewrite Ho. now repeat split.
Qed.

Lemma remounted_instance_bound_to_container :
  let acts := [RunEffect (CtorReturns true); RunCleanup; RunEffect (CtorReturns false)] in
  exists w,
    widgets (steps acts (Earth.initial (Some 7))) !! 1 = Some w /\
    container (options w) = 7 /\
    style (options w) = PLAYFUL_GLOBE_STYLE.
Proof.
  cbv zeta. eexists. split; [reflexivity|].
  pose proof (instances_bound_to_container_and_style 7
                [RunEffect (CtorReturns true); RunCleanup; RunEffect (CtorReturns false)]
                1 _ eq_refl) as (H1 & H2 & _).
  split; [exact H1 | exact H2].
Defined.

(** X5.  The component never asks an instance for a projection other than
    the globe, and never calls [setProjection] on an instance that has no
    such method. *)
Theorem only_globe_is_ever_asserted
    (c : Container) (acts : list Action) (i : MapId) (w : MapInstance) :
  widgets (steps acts (Earth.initial (Some c))) !! i = Some w ->
  Forall (fun p => p = {| type := "globe" |}) (setProjection_calls w) /\
  (setProjection_defined w = false -> setProjection_calls w = []).
Proof.
  intros Hw. destruct (well_kept_steps c acts) as (_ & _ & Hk).
  destruct (Hk i w Hw) as (_ & _ & _ & _ & [k Hp] & Hn). split; [|exact Hn].
  rewrite Hp. clear. induction k as [|k IH]; cbn; constructor; auto.
Qed.

Lemma loads_assert_only_the_globe :
  let acts := [RunEffect (CtorReturns true); Fire 0 Load; Fire 0 Load] in
  exists w,
    widgets (steps acts (Earth.initial (Some 0))) !! 0 = Some w /\
    length (setProjection_calls w) = 2 /\
    Forall (fun p => p = {| type := "globe" |}) (setProjection_calls w).
Proof.
  cbv zeta. eexists. split; [reflexivity|]. split; [reflexivity|].
  exact (proj1 (only_globe_is_ever_asserted 0
                  [RunEffect (CtorReturns true); Fire 0 Load; Fire 0 Load] 0 _ eq_refl)).
Defined.

(** X6.  Without a container nothing ever happens: whatever is executed or
    fired, no instance is constructed, the reference stays null and the
    status stays at its initial text. *)
Theorem nothing_happens_without_container (acts : list Action) :
  steps acts (Earth.initial None) = Earth.initial None.
Proof.
  apply (steps_invariant (fun s => s = Earth.initial None)); [|reflexivity].
  intros [o| |m ev] s ->; cbn [step].
  - now apply effect_no_container.
  - now rewrite cleanup_run.
  - reflexivity.
Qed.

(** ** The texts the status takes *)

Lemma status_shape_on_error (e : ErrorEvent) (s : Sys) :
  status_shape (status s) -> status_shape (status (run (Earth.on_error e) s)).
Proof.
  intros H. rewrite on_error_run. cbv zeta.
  destruct (surfaced e) as [m|] eqn:Hs; [|exact H].
  apply surfaced_some in Hs as (_ & Hne & Hg & Hsp).
  right. right. left. now exists m.
Qed.

Lemma status_shape_on_load (m : MapId) (s : Sys) :
  status_shape (status (run (Earth.on_load m) s)).
Proof.
  rewrite on_load_run. cbv zeta. right. left. now destruct (from_option _ _ _).
Qed.

Lemma status_shape_effect (o : CtorOutcome) (s : Sys) :
  status_shape (status s) -> status_shape (status (run (Earth.effect o) s)).
Proof.
  intros H. destruct (mapRef s) as [m|] eqn:Hr; [now rewrite (effect_held o s m Hr)|].
  destruct (mapContainer s) as [c|] eqn:Hc; [|now rewrite effect_no_container].
  destruct o as [e|d].
  - rewrite (effect_throws e c s Hr Hc). right. right. right. now eexists.
  - now rewrite (effect_returns d c s Hr Hc).
Qed.

(** X7.  Whatever happens to the component, its status text has one of four
    forms: the initial text, the empty text, "Error: " followed by a
    non-empty message that mentions neither "glyph" nor "sprite", or
    "Initialization Failed: " followed by the text of the thrown message. *)
Theorem status_has_one_of_four_forms (c : option Container) (acts : list Action) :
  status_shape (status (steps acts (Earth.initial c))).
Proof.
  apply (steps_invariant (fun s => status_shape (status s))); [|now left].
  intros [o| |m ev] s H; cbn [step].
  - now apply status_shape_effect.
  - rewrite cleanup_run. now destruct (mapRef s).
  - apply (fire_preserves (fun s => status_shape (status s))); auto.
    + intros k s' _. apply status_shape_on_load.
    + intros e s'. apply status_shape_on_error.
Qed.

(** ** A mounted component, event after event *)








Lemma well_kept_step (c : Container) (a : Action) (s : Sys) :
  well_kept c s -> well_kept c (step s a).
Proof.
  intros H. destruct a as [o| |m ev]; cbn [step].
  - now apply well_kept_effect.
  - now apply well_kept_cleanup.
  - now apply well_kept_fire.
Qed.

(** What one action does to the calls an existing instance received. *)
Lemma step_projection_calls (c : Container) (i : MapId) (a : Action) (s : Sys)
    (w : MapInstance) :
  well_kept c s -> widgets s !! i = Some w ->
  exists w',
    widgets (step s a) !! i = Some w' /\
    setProjection_defined w' = setProjection_defined w /\
    setProjection_calls w' =
      (setProjection_calls w
         ++ (if is_load_of i a && setProjection_defined w then [Earth.globe] else []))%list.
Proof.
  intros (Hc & _ & Hk) Hw. destruct a as [o| |m ev]; cbn [step is_load_of andb].
  - destruct (mapRef s) as [k|] eqn:Hr.
    + rewrite (effect_held o s k Hr). exists w. now rewrite app_nil_r.
    + destruct o as [e|d].
      * rewrite (effect_throws e c s Hr Hc). exists w. now rewrite app_nil_r.
      * rewrite (effect_returns d c s Hr Hc). exists w. cbn.
        rewrite (lookup_app_l_Some _ _ _ _ Hw). now rewrite app_nil_r.
  - rewrite cleanup_run. destruct (mapRef s) as [k|]; cbn.
    + destruct (decide (k = i)) as [->|Hne].
      * rewrite list_lookup_alter_eq, Hw. eexists. split; [reflexivity|].
        cbn. now rewrite app_nil_r.
      * rewrite list_lookup_alter_ne by exact Hne. exists w. now rewrite app_nil_r.
    + exists w. now rewrite app_nil_r.
  - destruct (widgets s !! m) as [wm|] eqn:Hm.
    + destruct (Hk m wm Hm) as (_ & Hl & _). destruct ev as [|e].
      * rewrite (fire_load_registered m s wm Hm Hl).
        destruct (Nat.eqb_spec m i) as [->|Hne].
        -- assert (wm = w) as -> by congruence.
           destruct (on_load_at i s w Hw) as (_ & Hp & _).
           unfold projection_calls in Hp.
           rewrite on_load_run in *. cbv zeta in *. rewrite Hw in *. cbn [from_option] in *.
           destruct (setProjection_defined w) eqn:Hd;
             cbn [widgets with_widgets with_console with_status andb] in *.
           ++ rewrite list_lookup_alter_eq, Hw in *. cbn in *. eexists.
              split; [reflexivity|]. cbn. now split.
           ++ exists w. rewrite app_nil_r. now repeat split.
        -- destruct (on_load_at m s wm Hm) as (_ & _ & Ho).
           specialize (Ho i (not_eq_sym Hne)). unfold projection_calls in Ho.
           rewrite on_load_run in *. cbv zeta in *. rewrite Hm in *. cbn [from_option] in *.
           destruct (setProjection_defined wm);
             cbn [widgets with_widgets with_console with_status] in *.
           ++ rewrite list_lookup_alter_ne by exact Hne. exists w. now rewrite app_nil_r.
           ++ exists w. now rewrite app_nil_r.
      * rewrite (fire_error_registered m e s wm Hm Hl), on_error_run. cbv zeta.
        exists w. rewrite app_nil_r. now destruct (surfaced e).
    + unfold run, fire. rewrite Hm. cbn [snd]. exists w.
      destruct ev; [destruct (Nat.eqb_spec m i) as [->|Hne]; [congruence|]|];
        cbn; rewrite app_nil_r; now repeat split.
Qed.

Lemma steps_projection_calls (c : Container) (i : MapId) (acts : list Action) :
  forall (s : Sys) (w : MapInstance),
    well_kept c s -> widgets s !! i = Some w ->
    projection_calls i (steps acts s) =
      (setProjection_calls w
         ++ (if setProjection_defined w then replicate (loads_of i acts) Earth.globe else []))%list.
Proof.
  induction acts as [|a acts IH]; intros s w Hk Hw.
  - unfold projection_calls. cbn. rewrite Hw. cbn.
    now destruct (setProjection_defined w); rewrite app_nil_r.
  - destruct (step_projection_calls c i a s w Hk Hw) as (w' & Hw' & Hd & Hp).
    change (steps (a :: acts) s) with (steps acts (step s a)).
    rewrite (IH (step s a) w' (well_kept_step c a s Hk) Hw'), Hd, Hp.
    unfold loads_of. cbn [List.filter].
    destruct (is_load_of i a), (setProjection_defined w); cbn;
      now rewrite <- ?app_assoc, ?app_nil_r.
Qed.

(** X10.  Take any instance the component ever constructed, in any state
    the component reaches.  From then on, over every sequence of effect
    executions, cleanups and events, the [setProjection] calls that instance
    receives grow by exactly one call with the globe for each load event the
    instance fires, if it has the method, and not at all if it has none;
    nothing else adds a call, load events of other instances included. *)
Theorem one_projection_call_per_load
    (c : Container) (acts : list Action) (i : MapId) (w : MapInstance)
    (later : list Action) :
  let s := steps acts (Earth.initial (Some c)) in
  widgets s !! i = Some w ->
  projection_calls i (steps later s) =
    (setProjection_calls w
       ++ (if setProjection_defined w
           then replicate (loads_of i later) Earth.globe
           else []))%list.
Proof.
  cbv zeta. intros Hw. apply (steps_projection_calls c i later _ w); [|exact Hw].
  apply well_kept_steps.
Qed.

Lemma second_instance_counts_its_own_loads :
  let acts := [RunEffect (CtorReturns true); Fire 0 Load; RunCleanup;
               RunEffect (CtorReturns true)] in
  let later := [Fire 1 Load; Fire 0 Load; Fire 1 (Error {| error := None |});
                Fire 1 Load; RunCleanup; RunEffect (CtorReturns true)] in
  let s := steps acts (Earth.initial (Some 0)) in
  (exists w, widgets s !! 1 = Some w /\ setProjection_calls w = []
             /\ setProjection_defined w = true) /\
  projection_calls 1 (steps later s) = [Earth.globe; Earth.globe].
Proof.
  cbv zeta. split; [eexists; repeat split; reflexivity|].
  exact (one_projection_call_per_load 0
           [RunEffect (CtorReturns true); Fire 0 Load; RunCleanup;
            RunEffect (CtorReturns true)] 1 _
           [Fire 1 Load; Fire 0 Load; Fire 1 (Error {| error := None |});
            Fire 1 Load; RunCleanup; RunEffect (CtorReturns true)] eq_refl).
Defined.

(** ** What is on the screen *)


(** ** Executing the effect again after a failure *)

(** X12.  A construction failure is not final on the same component
    instance.  When the framework runs the cleanup and executes the effect
    again while keeping the component's state and refs, as the strict mode of
    the framework does once after the first mount, and the constructor now
    returns, the component holds the new instance; the status, being kept,
    still reads "Initialization Failed: ..." from the first attempt, until an
    event changes it. *)
Theorem failed_construction_can_be_retried
    (e : ErrorObj) (d : bool) (c : Container) (s : Sys) :
  mapRef s = None ->
  mapContainer s = Some c ->
  let s' := steps [RunEffect (CtorThrows e); RunCleanup; RunEffect (CtorReturns d)] s in
  holding (length (widgets s)) d s' /\
  status s' = "Initialization Failed: " ++ Js.template (message e).
Proof.
  intros Hr Hc. cbv zeta. unfold steps. cbn [fold_left step].
  rewrite (effect_throws e c s Hr Hc).
  rewrite cleanup_empty_handed by exact Hr.
  destruct (mount_returns d c (with_status ("Initialization Failed: " ++ Js.template (message e)) s))
    as (_ & _ & Hh & Hs & _); [exact Hr | exact Hc |].
  rewrite sys_mount in Hh, Hs. split; [exact Hh | exact Hs].
Qed.

Lemma retry_after_invalid_container :
  let e := {| message := Some "invalid container" |} in
  let s := Earth.initial (Some 0) in
  let s' := steps [RunEffect (CtorThrows e); RunCleanup; RunEffect (CtorReturns true)] s in
  mapRef s = None /\
  mapContainer s = Some 0 /\
  mapRef s' = Some 0 /\
  status s' = "Initialization Failed: invalid container".
Proof.
  cbv zeta. do 2 (split; [reflexivity|]).
  destruct (failed_construction_can_be_retried
              {| message := Some "invalid container" |} true 0
              (Earth.initial (Some 0)) eq_refl eq_refl) as [[Hm _] Hs].
  split; [exact Hm | exact Hs].
Defined.

(** ** Cross-references of the style document *)

(** X13.  The layers of the style document have pairwise distinct ids, and
    each is resolved: the background layer names no source, every other
    layer names a source the document declares, of a type the layer's type
    draws from, and every layer on the vector source names a source
    layer. *)
Theorem style_layers_resolved :
  NoDup (map Style.layer_id (Style.layers PLAYFUL_GLOBE_STYLE)) /\
  Forall (fun l => StyleCheck.resolved PLAYFUL_GLOBE_STYLE l = true)
         (Style.layers PLAYFUL_GLOBE_STYLE).
Proof.
  split.
  - let l := eval vm_compute in (map Style.layer_id (Style.layers PLAYFUL_GLOBE_STYLE)) in
    change (NoDup l).
    repeat (apply NoDup_cons_2;
            [intros H; repeat (apply elem_of_cons in H as [H|H]; [discriminate H|]);
             inversion H|]).
    apply NoDup_nil_2.
  - let ls := eval cbv [Style.layers Json.get Json.assoc PLAYFUL_GLOBE_STYLE String.eqb Ascii.eqb Bool.eqb]
                in (Style.layers PLAYFUL_GLOBE_STYLE) in
    change (Forall (fun x => StyleCheck.resolved PLAYFUL_GLOBE_STYLE x = true) ls).
    repeat (apply Forall_cons; split; [vm_compute; reflexivity|]). apply Forall_nil_2.
Qed.

(** ** The build configuration *)

(** X14.  Whatever [NODE_ENV] is, the site is exported statically with
    unoptimized images, and the asset prefix agrees with the base path: in
    production, and only when [NODE_ENV] is exactly "production", the base
    path is "/NextGlobe" and the asset prefix is the base path followed by a
    slash; otherwise, an unset variable included, both are empty. *)
Theorem build_paths_agree (node_env : option string) :
  let cfg := NextConfig.nextConfig node_env in
  NextConfig.output cfg = "export" /\
  NextConfig.unoptimized (NextConfig.images cfg) = true /\
  (node_env = Some "production" ->
   NextConfig.basePath cfg = "/NextGlobe" /\
   NextConfig.assetPrefix cfg = NextConfig.basePath cfg ++ "/") /\
  (node_env <> Some "production" ->
   NextConfig.basePath cfg = "" /\ NextConfig.assetPrefix cfg = "").
Proof.
  cbv zeta. split; [reflexivity|]. split; [reflexivity|].
  unfold NextConfig.nextConfig, NextConfig.isProd. cbn [NextConfig.basePath NextConfig.assetPrefix].
  destruct node_env as [v|].
  - destruct (String.eqb_spec v "production") as [->|Hne].
    + split; [now split | congruence].
    + split; [congruence | now split].
  - split; [discriminate | now split].
Qed.

Lemma build_paths_in_production_and_development :
  let prod := NextConfig.nextConfig (Some "production") in
  let dev := NextConfig.nextConfig (Some "development") in
  Some "production" = Some "production" /\
  Some "development" <> Some "production" /\
  NextConfig.assetPrefix prod = "/NextGlobe/" /\
  NextConfig.basePath dev = "".
Proof.
  cbv zeta. split; [reflexivity|]. split; [discriminate|].
  pose proof (build_paths_agree (Some "production")) as (_ & _ & Hp & _).
  pose proof (build_paths_agree (Some "development")) as (_ & _ & _ & Hd).
  split.
  - destruct (Hp eq_refl) as [Hb Ha]. rewrite Ha, Hb. reflexivity.
  - apply Hd. discriminate.
Defined.
